(** * ComponentTransitionAnimation: a shallow embedding and its properties

    The development follows [src/components/ComponentTransitionAnimation.tsx]:
    a React function component holding two state cells ([delayedStep],
    [opacity]), one memoised async callback ([queueDelayedStep]) and one effect
    that calls it.

    Platform conventions used throughout:
    - a JS [number] is the rational it denotes, or [NaN], or an infinity; the
      program cannot tell [-0] from [0] (it only uses [===], [||], [| 0], [/ 2]
      and template strings on numbers), so the two are identified; halving is
      exact;
    - state updates made inside one task are flushed together (React 18
      automatic batching), and a render whose state is unchanged is skipped;
    - [setTimeout(f, ms)] runs [f] once the clock has advanced by [ms]
      milliseconds, and at once when [ms] is negative or not finite; timers due
      at the same instant run in the order they were set. *)

From Stdlib Require Import ZArith QArith Qround Lqa Lia.
From stdpp Require Import gmap strings list fin_maps pretty.

Local Open Scope Z_scope.

(** ** JS numbers *)

Inductive number : Type :=
| Finite (q : Q)
| NaN
| Infinity
| NegInfinity.

Definition of_Z (z : Z) : number := Finite (inject_Z z).
Definition of_nat (n : nat) : number := of_Z (Z.of_nat n).

(** [x === y] on numbers. *)
Definition strict_eq (x y : number) : bool :=
  match x, y with
  | Finite a, Finite b => Qeq_bool a b
  | Infinity, Infinity => true
  | NegInfinity, NegInfinity => true
  | _, _ => false
  end.

(** [Object.is(x, y)] on numbers, the comparison React applies to hook
    dependencies and to state updates. *)
Definition Object_is (x y : number) : bool :=
  match x, y with
  | NaN, NaN => true
  | _, _ => strict_eq x y
  end.

(** ToBoolean on numbers: [0] and [NaN] are falsy. *)
Definition truthy (x : number) : bool :=
  match x with
  | Finite q => negb (Qeq_bool q 0)
  | NaN => false
  | Infinity | NegInfinity => true
  end.

(** ToInt32: truncate toward zero, wrap modulo 2^32 into [-2^31, 2^31). *)
Definition truncate (q : Q) : Z := Z.quot (Qnum q) (Z.pos (Qden q)).

Definition wrap32 (z : Z) : Z :=
  let m := z mod 2 ^ 32 in
  if 2 ^ 31 <=? m then m - 2 ^ 32 else m.

Definition ToInt32 (x : number) : Z :=
  match x with
  | Finite q => wrap32 (truncate q)
  | NaN | Infinity | NegInfinity => 0
  end.

(** [x | 0] *)
Definition bitor0 (x : number) : number := of_Z (ToInt32 x).

(** [x / 2] *)
Definition half (x : number) : number :=
  match x with
  | Finite q => Finite (Qred (q / 2))
  | other => other
  end.

(** ** Styles and the render tree *)

Inductive CSSValue : Type :=
| CssString (s : string)
| CssNumber (n : number).

Abbreviation CSSProperties := (gmap string CSSValue).

(** [{ ...literal, ...over }]: the keys of [over] replace those of the
    literal written before the spread. *)
Definition spread (literal over : CSSProperties) : CSSProperties := over ∪ literal.

#[warnings="-register-all"]
Inductive ReactNode : Type :=
| Text (s : string)
| Div (style : CSSProperties) (key : option nat) (children : list ReactNode).

Definition children_of (n : ReactNode) : list ReactNode :=
  match n with
  | Text _ => []
  | Div _ _ cs => cs
  end.

Definition style_of (n : ReactNode) : CSSProperties :=
  match n with
  | Text _ => ∅
  | Div s _ _ => s
  end.

(** [Array.prototype.filter] with the callback's index argument. *)
Fixpoint Array_filter {A : Type} (f : A → nat → bool) (from : nat) (l : list A) : list A :=
  match l with
  | [] => []
  | x :: rest =>
      if f x from then x :: Array_filter f (S from) rest
      else Array_filter f (S from) rest
  end.

(** ** Props *)

Record Props : Type := mkProps {
  components : list ReactNode;
  currentStep : number;
  transitionDuration : option number;
  style : option CSSProperties;
  containerStyle : option CSSProperties;
  animationType : option string;
}.

(** [style || {}] *)
Definition style_ (p : Props) : CSSProperties := default ∅ (style p).

(** [containerStyle || {}] *)
Definition containerStyle_ (p : Props) : CSSProperties := default ∅ (containerStyle p).

(** [animationType || 'ease-in-out']: the empty string is falsy. *)
Definition animationType_ (p : Props) : string :=
  match animationType p with
  | Some (String c s) => String c s
  | Some EmptyString | None => "ease-in-out"
  end.

(** [transitionDuration || 1000] *)
Definition duration_or_default (p : Props) : number :=
  match transitionDuration p with
  | Some d => if truthy d then d else of_Z 1000
  | None => of_Z 1000
  end.

(** [(transitionDuration || 1000) / 2] *)
Definition transitionDuration_ (p : Props) : number := half (duration_or_default p).

(** ** The render function *)

Section Render.

(** Number-to-string conversion of template literals, a platform built-in. *)
Variable Number_toString : number → string.

(** The object literal of the container, before the caller's spread. *)
Definition container_literal (p : Props) : CSSProperties :=
    {[ "transition" :=
         CssString ("height " +:+ Number_toString (transitionDuration_ p)
                    +:+ "s " +:+ animationType_ p) ]}.

(** The object literal of an item wrapper, before the caller's spread. *)
Definition item_literal (p : Props) (opacity : number) : CSSProperties :=
    <[ "opacity" := CssNumber opacity ]>
    (<[ "display" := CssString "flex" ]>
    (<[ "transition" :=
          CssString ("opacity " +:+ Number_toString (transitionDuration_ p)
                     +:+ "ms " +:+ animationType_ p) ]>
    (<[ "width" := CssString "100%" ]> ∅))).

Definition wrapper (p : Props) (opacity : number) (index : nat) (element : ReactNode)
    : ReactNode :=
    Div (spread (item_literal p opacity) (style_ p)) (Some index) [element].

Definition shown_components (p : Props) (delayedStep : number) : list ReactNode :=
    Array_filter (λ _ index, strict_eq (of_nat index) delayedStep) 0 (components p).

(** The JSX the component returns for the given props and state cells. *)
Definition render (p : Props) (delayedStep opacity : number) : ReactNode :=
    Div (spread (container_literal p) (containerStyle_ p)) None
        (imap (wrapper p opacity) (shown_components p delayedStep)).

End Render.

(** ** State cells, the async callback and the effect *)

Record State : Type := mkState {
  delayedStep : number;
  opacity : number;
}.

(** [useState(currentStep | 0)] and [useState(1)] *)
Definition initial_state (p : Props) : State :=
  {| delayedStep := bitor0 (currentStep p); opacity := of_Z 1 |}.

Inductive Action : Type :=
| SetDelayedStep (n : number)
| SetOpacity (n : number).

Definition dispatch (s : State) (a : Action) : State :=
  match a with
  | SetDelayedStep n => {| delayedStep := n; opacity := opacity s |}
  | SetOpacity n => {| delayedStep := delayedStep s; opacity := n |}
  end.

Definition same_state (s s' : State) : bool :=
  Object_is (delayedStep s) (delayedStep s') && Object_is (opacity s) (opacity s').

(** An async call parked at its [await delay(ms)]: what it did before, and
    what it does when the timer resolves. *)
Record Suspended : Type := mkSuspended {
  before : list Action;
  ms : number;
  after : list Action;
}.

(** [queueDelayedStep(step)], closed over [delayedStep] and
    [transitionDuration_]; [None] is the early [return]. *)
Definition queueDelayedStep (delayedStep transitionDuration_ step : number)
  : option Suspended :=
  if strict_eq step delayedStep then None
  else Some {| before := [SetOpacity (of_Z 0)];
               ms := transitionDuration_;
               after := [SetDelayedStep step; SetOpacity (of_Z 1)] |}.

(** ** A mounted instance: hook memory, pending timers, clock, committed frames *)

Record Timer : Type := mkTimer {
  due : Q;
  continuation : list Action;
}.

Record Instance : Type := mkInstance {
  props : Props;
  state : State;
  (** the values [currentStep, delayedStep, transitionDuration_] the effect
      last ran with: [queueDelayedStep] is a new function exactly when one of
      its own dependencies [delayedStep, transitionDuration_] has changed *)
  deps : number * number * number;
  timers : list Timer;
  now : Q;
  (** the state cells seen by each committed render, oldest first *)
  frames : list State;
}.

Definition with_props (p : Props) (i : Instance) : Instance :=
  mkInstance p (state i) (deps i) (timers i) (now i) (frames i).
Definition with_state (s : State) (i : Instance) : Instance :=
  mkInstance (props i) s (deps i) (timers i) (now i) (frames i).
Definition with_deps (d : number * number * number) (i : Instance) : Instance :=
  mkInstance (props i) (state i) d (timers i) (now i) (frames i).
Definition with_timers (ts : list Timer) (i : Instance) : Instance :=
  mkInstance (props i) (state i) (deps i) ts (now i) (frames i).
Definition with_now (t : Q) (i : Instance) : Instance :=
  mkInstance (props i) (state i) (deps i) (timers i) t (frames i).

Definition effect_deps (p : Props) (s : State) : number * number * number :=
  (currentStep p, delayedStep s, transitionDuration_ p).

Definition same_deps (a b : number * number * number) : bool :=
  let '(a1, a2, a3) := a in
  let '(b1, b2, b3) := b in
  Object_is a1 b1 && Object_is a2 b2 && Object_is a3 b3.

(** How long a timer set with [ms] waits. *)
Definition timeout (ms : number) : Q :=
  match ms with
  | Finite q => if Qle_bool 0 q then q else 0%Q
  | NaN | Infinity | NegInfinity => 0%Q
  end.

(** Pending timers are kept in firing order: by due time, then by age. *)
Fixpoint enqueue (tm : Timer) (queue : list Timer) : list Timer :=
  match queue with
  | [] => [tm]
  | x :: rest =>
      if Qle_bool (due x) (due tm) then x :: enqueue tm rest else tm :: queue
  end.

(** [new Promise((resolve) => setTimeout(resolve, ms))], awaited by a call
    whose remaining body is [k]. *)
Definition delay (ms : number) (k : list Action) (i : Instance) : Instance :=
  with_timers (enqueue {| due := (now i + timeout ms)%Q; continuation := k |} (timers i)) i.

(** A committed render records what it showed. *)
Definition commit (i : Instance) : Instance :=
  mkInstance (props i) (state i) (deps i) (timers i) (now i) (frames i ++ [state i]).

(** Apply a batch of state updates; re-render only if a cell changed. *)
Definition flush (updates : list Action) (rerender : Instance → Instance) (i : Instance)
  : Instance :=
  let s' := foldl dispatch (state i) updates in
  if same_state (state i) s' then i else rerender (with_state s' i).

(** The effect body, [queueDelayedStep(currentStep)], run after a commit. The
    update it makes before its [await] leaves the effect's dependencies as
    they are, so the render it causes does not run the effect again. *)
Definition effect (i : Instance) : Instance :=
  match queueDelayedStep (delayedStep (state i)) (transitionDuration_ (props i))
                         (currentStep (props i)) with
  | None => i
  | Some call => flush (before call) commit (delay (ms call) (after call) i)
  end.

(** One render pass: commit, then run the effect if its dependencies changed. *)
Definition render_pass (i : Instance) : Instance :=
  let i' := commit i in
  let d := effect_deps (props i') (state i') in
  if same_deps (deps i') d then i' else effect (with_deps d i').

(** First render: the effect always runs after mounting. *)
Definition mount (p : Props) (t : Q) : Instance :=
  let s := initial_state p in
  effect (commit (mkInstance p s (effect_deps p s) [] t [])).

(** The parent renders the component again with props [p]. *)
Definition setProps (p : Props) (i : Instance) : Instance :=
  render_pass (with_props p i).

(** A timer resolves: the parked call resumes and its updates are flushed. *)
Definition fire (tm : Timer) (i : Instance) : Instance :=
  flush (continuation tm) render_pass i.

(** Let the clock run to [t], firing every timer that falls due, in order.
    [fuel] bounds the number of timers fired. *)
Fixpoint advance (fuel : nat) (t : Q) (i : Instance) {struct fuel} : option Instance :=
  match timers i with
  | tm :: rest =>
      if Qle_bool (due tm) t then
        match fuel with
        | O => None
        | S fuel' => advance fuel' t (fire tm (with_now (due tm) (with_timers rest i)))
        end
      else Some (with_now t i)
  | [] => Some (with_now t i)
  end.

Definition set_currentStep (step : number) (p : Props) : Props :=
  mkProps (components p) step (transitionDuration p) (style p) (containerStyle p)
          (animationType p).

(** The state [Idle(visible)]: nothing pending, fully visible, the effect has
    run for the current props and found the requested step displayed. *)
Definition Idle (i : Instance) : Prop :=
  timers i = [] ∧
  opacity (state i) = of_Z 1 ∧
  same_deps (deps i) (effect_deps (props i) (state i)) = true ∧
  strict_eq (currentStep (props i)) (delayedStep (state i)) = true.

(** The array index a number denotes, if it is a non-negative integer. *)
Definition is_integer (q : Q) : bool := Qeq_bool q (inject_Z (Qfloor q)).

Definition as_index (x : number) : option nat :=
  match x with
  | Finite q =>
      if is_integer q && (0 <=? Qfloor q) then Some (Z.to_nat (Qfloor q)) else None
  | NaN | Infinity | NegInfinity => None
  end.

(** A decimal printer, for running the render function: it agrees with the
    built-in conversion on integers and on short decimal fractions of
    moderate size, which print as their exact expansion. *)
Fixpoint fraction_digits (fuel : nat) (r : Z) (d : Z) : string :=
  match fuel with
  | O => EmptyString
  | S fuel' =>
      if r =? 0 then EmptyString
      else pretty (r * 10 / d) +:+ fraction_digits fuel' (r * 10 mod d) d
  end.

Definition decimal (x : number) : string :=
  match x with
  | Finite q =>
      let n := Z.abs (Qnum (Qred q)) in
      let d := Z.pos (Qden (Qred q)) in
      (if Qnum (Qred q) <? 0 then "-" else EmptyString)
      +:+ pretty (n / d)
      +:+ (if n mod d =? 0 then EmptyString else "." +:+ fraction_digits 20 (n mod d) d)
  | NaN => "NaN"
  | Infinity => "Infinity"
  | NegInfinity => "-Infinity"
  end.

(** ** Concrete inputs *)

(** Three items, step 0, a duration of 1000 ms. *)
Definition abc : Props :=
  mkProps [Text "A"; Text "B"; Text "C"] (of_Z 0) (Some (of_Z 1000)) None None None.

Definition with_duration (d : option number) (p : Props) : Props :=
  mkProps (components p) (currentStep p) d (style p) (containerStyle p) (animationType p).

Definition with_styles (item container : option CSSProperties) (p : Props) : Props :=
  mkProps (components p) (currentStep p) (transitionDuration p) item container
          (animationType p).

(** The same, with a caller style for the item wrapper and for the container. *)
Definition styled : Props :=
  with_styles (Some {[ "display" := CssString "block" ]})
              (Some {[ "transition" := CssString "none" ]}) abc.


Definition with_animation (a : option string) (p : Props) : Props :=
  mkProps (components p) (currentStep p) (transitionDuration p) (style p)
          (containerStyle p) a.

(** ** Readings that the code does not satisfy *)

(** Scenario C as worded: the step is set to [s] at the current instant and
    back at [t1]; each of the two requests has a commit pending, due half a
    duration after it was made. *)
Definition both_commits_scheduled (i : Instance) (s : number) (t1 : Q) : Prop :=
  let h := timeout (transitionDuration_ (props i)) in
  ∀ fuel i1,
    advance fuel t1 (setProps (set_currentStep s (props i)) i) = Some i1 →
    map due (timers (setProps (props i) i1)) = [(now i + h)%Q; (t1 + h)%Q].

(** Scenario C as worded: once both of those instants have passed, the
    last-requested step is displayed at visibility 1. *)
Definition settled_after_both (i : Instance) (s : number) (t1 : Q) : Prop :=
  let h := timeout (transitionDuration_ (props i)) in
  ∀ fuel i1 fuel' i3,
    advance fuel t1 (setProps (set_currentStep s (props i)) i) = Some i1 →
    advance fuel' (t1 + h)%Q (setProps (props i) i1) = Some i3 →
    state i3 = mkState (currentStep (props i)) (of_Z 1).


(** The displayed step starts as the truncated value of [currentStep]. *)
Definition seeded_with_truncation (p : Props) : Prop :=
  ∀ q, currentStep p = Finite q → delayedStep (initial_state p) = of_Z (truncate q).

(** ** Reachable instances and what they keep *)

(** [key={index}] of a rendered element. *)
Definition key_of (n : ReactNode) : option nat :=
  match n with
  | Text _ => None
  | Div _ k _ => k
  end.

(** The instances a mounted component can be in: mounted with some props at
    some instant, rendered again by its parent with any props, or left alone
    while the clock runs and timers fire. *)
Inductive reachable : Instance → Prop :=
| reach_mount (p : Props) (t : Q) : reachable (mount p t)
| reach_setProps (p : Props) (i : Instance) :
    reachable i → reachable (setProps p i)
| reach_advance (fuel : nat) (t : Q) (i i' : Instance) :
    reachable i → advance fuel t i = Some i' → reachable i'.

(** The timer resumes a call of [queueDelayedStep(s)]. *)
Definition commits (tm : Timer) (s : number) : Prop :=
  continuation tm = [SetDelayedStep s; SetOpacity (of_Z 1)].

Definition binary (s : State) : Prop :=
  opacity s = of_Z 0 ∨ opacity s = of_Z 1.

(** What holds before the effect of a render runs. *)
Definition well_formed (i : Instance) : Prop :=
  binary (state i)
  ∧ Forall binary (frames i)
  ∧ Forall (λ tm, ∃ s, commits tm s) (timers i)
  ∧ same_deps (deps i) (effect_deps (props i) (state i)) = true
  ∧ (opacity (state i) = of_Z 0 → timers i ≠ []).

(** What holds between tasks: in addition, the requested step is displayed
    or a commit of it is pending. *)
Definition invariant (i : Instance) : Prop :=
  well_formed i
  ∧ (Object_is (currentStep (props i)) (delayedStep (state i)) = true
     ∨ Exists (λ tm, ∃ s, commits tm s ∧ Object_is (currentStep (props i)) s = true)
              (timers i)).

(** * Properties *)

(** ** Numbers *)

Lemma Qeq_bool_sym (a b : Q) : Qeq_bool a b = Qeq_bool b a.
Proof.
  destruct (Qeq_bool a b) eqn:E, (Qeq_bool b a) eqn:E'; try reflexivity.
  - apply Qeq_bool_iff in E. symmetry in E. apply Qeq_bool_iff in E. congruence.
  - apply Qeq_bool_iff in E'. symmetry in E'. apply Qeq_bool_iff in E'. congruence.
Qed.

Lemma Qeq_bool_trans_l (a b c : Q) :
  Qeq_bool a b = true → Qeq_bool a c = Qeq_bool b c.
Proof.
  intros E. apply Qeq_bool_iff in E.
  destruct (Qeq_bool a c) eqn:Ea, (Qeq_bool b c) eqn:Eb; try reflexivity.
  - apply Qeq_bool_iff in Ea. rewrite E in Ea. apply Qeq_bool_iff in Ea. congruence.
  - apply Qeq_bool_iff in Eb. rewrite <- E in Eb. apply Qeq_bool_iff in Eb. congruence.
Qed.

Lemma strict_eq_sym (x y : number) : strict_eq x y = strict_eq y x.
Proof. destruct x, y; simpl; auto using Qeq_bool_sym. Qed.

Lemma strict_eq_left (x y z : number) :
  strict_eq x y = true → strict_eq x z = strict_eq y z.
Proof.
  destruct x, y, z; simpl; try congruence; auto using Qeq_bool_trans_l.
Qed.

Lemma strict_eq_not_NaN (x y : number) : strict_eq x y = true → strict_eq y y = true.
Proof. destruct x, y; simpl; try congruence; intros _; apply Qeq_bool_refl. Qed.

Lemma Object_is_refl (x : number) : Object_is x x = true.
Proof. destruct x; simpl; auto using Qeq_bool_refl. Qed.

Lemma Object_is_strict (x y : number) :
  strict_eq y y = true → Object_is x y = strict_eq x y.
Proof. destruct x, y; simpl; congruence. Qed.

Lemma Object_is_left (x y z : number) :
  Object_is x y = true → Object_is x z = Object_is y z.
Proof.
  destruct x, y, z; simpl; try congruence; auto using Qeq_bool_trans_l.
Qed.

Lemma same_deps_refl (a : number * number * number) : same_deps a a = true.
Proof. destruct a as [[a1 a2] a3]. simpl. rewrite !Object_is_refl. reflexivity. Qed.

(** A request that differs from the displayed step changes the effect's
    dependencies, whatever was requested before. *)
Lemma Object_is_differs (c d s : number) :
  strict_eq c d = true → strict_eq s d = false → Object_is c s = false.
Proof.
  intros Hc Hs. destruct (Object_is c s) eqn:E; [|reflexivity].
  assert (strict_eq c s = true) as Hcs
    by (destruct c, s; simpl in *; congruence).
  rewrite (strict_eq_sym s d), <- (strict_eq_left c d s Hc), Hcs in Hs. congruence.
Qed.

Lemma wrap32_range (z : Z) : - 2 ^ 31 <= wrap32 z < 2 ^ 31.
Proof.
  unfold wrap32. pose proof (Z.mod_pos_bound z (2 ^ 32) ltac:(lia)) as B.
  destruct (Z.leb_spec (2 ^ 31) (z mod 2 ^ 32)); lia.
Qed.

Lemma wrap32_congruent (z : Z) : (wrap32 z - z) mod 2 ^ 32 = 0.
Proof.
  unfold wrap32. destruct (Z.leb_spec (2 ^ 31) (z mod 2 ^ 32)).
  - replace (z mod 2 ^ 32 - 2 ^ 32 - z) with (z mod 2 ^ 32 - z + (-1) * 2 ^ 32) by lia.
    rewrite Z.mod_add by lia. rewrite Zminus_mod, Zmod_mod, Z.sub_diag. reflexivity.
  - rewrite Zminus_mod, Zmod_mod, Z.sub_diag. reflexivity.
Qed.

Lemma wrap32_small (z : Z) : - 2 ^ 31 <= z < 2 ^ 31 → wrap32 z = z.
Proof.
  intros Hz. unfold wrap32.
  destruct (Z.leb_spec (2 ^ 31) (z mod 2 ^ 32)) as [H|H].
  - destruct (Z.ltb_spec z 0).
    + replace z with (z + 2 ^ 32 + (-1) * 2 ^ 32) at 1 by lia.
      rewrite Z.mod_add by lia. rewrite Z.mod_small by lia.
      replace z with (z + 2 ^ 32 + (-1) * 2 ^ 32) in H at 1 by lia. lia.
    + rewrite Z.mod_small in H by lia. lia.
  - destruct (Z.ltb_spec z 0).
    + replace z with (z + 2 ^ 32 + (-1) * 2 ^ 32) in H at 1 by lia.
      rewrite Z.mod_add in H by lia. rewrite Z.mod_small in H by lia. lia.
    + apply Z.mod_small. lia.
Qed.

(** Truncation rounds toward zero. *)
Lemma truncate_toward_zero (q : Q) :
  truncate q = if Qle_bool 0 q then Qfloor q else Qceiling q.
Proof.
  destruct q as [n d]. unfold truncate, Qceiling, Qfloor, Qle_bool. simpl.
  rewrite Z.mul_1_r. change (0 * Z.pos d) with 0. destruct (Z.leb_spec 0 n).
  - apply Z.quot_div_nonneg; lia.
  - rewrite <- (Z.opp_involutive n) at 1. rewrite Z.quot_opp_l by lia.
    f_equal. apply Z.quot_div_nonneg; lia.
Qed.

(** ** Which component is shown *)

Lemma Qfloor_of_integer (q : Q) (z : Z) : (q == inject_Z z)%Q → Qfloor q = z.
Proof. intros E. rewrite E. apply Qfloor_Z. Qed.

Lemma is_integer_spec (q : Q) : is_integer q = true ↔ ∃ z, (q == inject_Z z)%Q.
Proof.
  unfold is_integer. split.
  - intros E. apply Qeq_bool_iff in E. eauto.
  - intros [z E]. apply Qeq_bool_iff. rewrite (Qfloor_of_integer q z E). exact E.
Qed.

(** [index === x] holds exactly for the index that [x] denotes. *)
Lemma strict_eq_of_nat (x : number) (i : nat) :
  strict_eq (of_nat i) x = true ↔ as_index x = Some i.
Proof.
  destruct x as [q| | |]; simpl; try (split; congruence).
  split.
  - intros E. apply Qeq_bool_iff in E. symmetry in E.
    pose proof (Qfloor_of_integer q _ E) as F.
    assert (is_integer q = true) as -> by (apply is_integer_spec; eauto).
    rewrite F. simpl. destruct (Z.leb_spec 0 (Z.of_nat i)); [|lia].
    rewrite Nat2Z.id. reflexivity.
  - destruct (is_integer q) eqn:I; simpl; [|congruence].
    destruct (Z.leb_spec 0 (Qfloor q)); [|congruence].
    intros [= <-]. apply Qeq_bool_iff. rewrite Z2Nat.id by assumption.
    unfold is_integer in I. apply Qeq_bool_iff in I. symmetry. exact I.
Qed.

Lemma as_index_of_nat (n : nat) : as_index (of_nat n) = Some n.
Proof. apply strict_eq_of_nat. simpl. apply Qeq_bool_refl. Qed.

Lemma as_index_negative (q : Q) : (q < 0)%Q → as_index (Finite q) = None.
Proof.
  intros H. simpl. destruct (Z.leb_spec 0 (Qfloor q)) as [F|F].
  - pose proof (Qfloor_le q) as L.
    assert (inject_Z 0 <= inject_Z (Qfloor q))%Q as L' by (rewrite <- Zle_Qle; exact F).
    change (inject_Z 0) with 0%Q in L'. lra.
  - rewrite andb_false_r. reflexivity.
Qed.


Lemma Array_filter_none {A : Type} (f : A → nat → bool) (l : list A) (from : nat) :
  (∀ x i, f x i = false) → Array_filter f from l = [].
Proof.
  intros Hf. revert from. induction l as [|x rest IH]; intros from; simpl.
  - reflexivity.
  - rewrite Hf. apply IH.
Qed.

Lemma Array_filter_past {A : Type} (f : A → nat → bool) (n : nat) (l : list A) (from : nat) :
  (∀ x i, f x i = true ↔ i = n) → (n < from)%nat → Array_filter f from l = [].
Proof.
  intros Hf. revert from. induction l as [|x rest IH]; intros from Hlt; simpl.
  - reflexivity.
  - destruct (f x from) eqn:E.
    + apply Hf in E. lia.
    + apply IH. lia.
Qed.

Lemma Array_filter_only {A : Type} (f : A → nat → bool) (n : nat) (l : list A) (from : nat) :
  (∀ x i, f x i = true ↔ i = n) → (from ≤ n)%nat →
  Array_filter f from l = option_list (l !! (n - from)%nat).
Proof.
  intros Hf. revert from. induction l as [|x rest IH]; intros from Hle; simpl.
  - reflexivity.
  - destruct (f x from) eqn:E.
    + apply Hf in E. subst from. rewrite Nat.sub_diag. simpl.
      rewrite (Array_filter_past f n) by (auto; lia). reflexivity.
    + assert (from ≠ n) as Hne by (intros ->; rewrite (proj2 (Hf x n) eq_refl) in E; congruence).
      rewrite IH by lia. replace (n - from)%nat with (S (n - S from)) by lia. reflexivity.
Qed.

(** The filter keeps the component at the index the displayed step denotes. *)
Lemma shown_components_spec (p : Props) (d : number) :
  shown_components p d = option_list (as_index d ≫= λ n, components p !! n).
Proof.
  unfold shown_components. destruct (as_index d) as [n|] eqn:E; simpl.
  - rewrite (Array_filter_only _ n).
    + rewrite Nat.sub_0_r. reflexivity.
    + intros _ i. change (strict_eq (of_nat i) d = true ↔ i = n).
      rewrite strict_eq_of_nat, E. split; congruence.
    + lia.
  - apply Array_filter_none. intros _ i.
    destruct (strict_eq (of_nat i) d) eqn:S; [|exact S].
    apply strict_eq_of_nat in S. congruence.
Qed.

Example decimal_500 : decimal (of_Z 500) = "500".
Proof. reflexivity. Qed.

Example decimal_half : decimal (half (of_Z 1001)) = "500.5".
Proof. reflexivity. Qed.

Example decimal_negative : decimal (half (of_Z (-5))) = "-2.5".
Proof. reflexivity. Qed.

(** ** The rendered tree *)

Section RenderProperties.

Variable Number_toString : number → string.

Lemma lookup_spread (literal over : CSSProperties) (k : string) :
  spread literal over !! k =
    match over !! k with
    | Some v => Some v
    | None => literal !! k
    end.
Proof.
  unfold spread. rewrite lookup_union.
  destruct (over !! k), (literal !! k); reflexivity.
Qed.

Lemma children_of_render (p : Props) (d o : number) :
  children_of (render Number_toString p d o) =
    match as_index d ≫= (λ n, components p !! n) with
    | Some x => [wrapper Number_toString p o 0 x]
    | None => []
    end.
Proof.
  simpl. rewrite shown_components_spec.
  destruct (as_index d ≫= λ n, components p !! n); reflexivity.
Qed.

Lemma child_is_wrapper (p : Props) (d o : number) (c : ReactNode) :
  c ∈ children_of (render Number_toString p d o) →
  ∃ x, c = wrapper Number_toString p o 0 x.
Proof.
  rewrite children_of_render.
  destruct (as_index d ≫= λ n, components p !! n) as [x|].
  - intros ->%list_elem_of_singleton. eauto.
  - intros []%not_elem_of_nil.
Qed.


Lemma style_of_render (p : Props) (d o : number) (k : string) :
  style_of (render Number_toString p d o) !! k =
    match containerStyle_ p !! k with
    | Some v => Some v
    | None => container_literal Number_toString p !! k
    end.
Proof. simpl. apply lookup_spread. Qed.

Lemma style_of_child (p : Props) (d o : number) (k : string) (c : ReactNode) :
  c ∈ children_of (render Number_toString p d o) →
  style_of c !! k =
    match style_ p !! k with
    | Some v => Some v
    | None => item_literal Number_toString p o !! k
    end.
Proof. intros [x ->]%child_is_wrapper. simpl. apply lookup_spread. Qed.

(** C8. The container's style and each item wrapper's style are the
    component's own literal overlaid with the caller's record: on every key
    the caller's value is used when the caller gives one, the component's
    otherwise. *)
Theorem caller_styles_win (p : Props) (d o : number) (k : string) :
  style_of (render Number_toString p d o) !! k =
    match containerStyle_ p !! k with
    | Some v => Some v
    | None => container_literal Number_toString p !! k
    end
  ∧ ∀ c, c ∈ children_of (render Number_toString p d o) →
      style_of c !! k =
        match style_ p !! k with
        | Some v => Some v
        | None => item_literal Number_toString p o !! k
        end.
Proof. split; [apply style_of_render | apply style_of_child]. Qed.


(** C7. Without [transitionDuration] the duration is 1000 ms: the fade-out
    timer waits 500 ms and the fade-in is declared as 500 ms. Without
    [animationType] the timing function is [ease-in-out]. *)
Theorem defaults (p : Props) (o : number) :
  (transitionDuration p = None →
     duration_or_default p = of_Z 1000
     ∧ transitionDuration_ p = of_Z 500
     ∧ timeout (transitionDuration_ p) = 500%Q
     ∧ item_literal Number_toString p o !! "transition" =
         Some (CssString ("opacity " +:+ Number_toString (of_Z 500) +:+ "ms "
                          +:+ animationType_ p)))
  ∧ (animationType p = None → animationType_ p = "ease-in-out").
Proof.
  split.
  - intros H.
    assert (duration_or_default p = of_Z 1000) as HD
      by (unfold duration_or_default; rewrite H; reflexivity).
    assert (transitionDuration_ p = of_Z 500) as HT
      by (unfold transitionDuration_; rewrite HD; reflexivity).
    repeat split; try assumption.
    + rewrite HT. reflexivity.
    + unfold item_literal. rewrite HT. reflexivity.
  - intros H. unfold animationType_. rewrite H. reflexivity.
Qed.

End RenderProperties.

(** ** The event loop *)

Lemma Qle_bool_false (a b : Q) : Qle_bool a b = false ↔ (b < a)%Q.
Proof.
  split.
  - intros E. apply Qnot_le_lt. intros H%Qle_bool_iff. congruence.
  - intros H. destruct (Qle_bool a b) eqn:E; [|reflexivity].
    apply Qle_bool_iff in E. lra.
Qed.

Lemma advance_idle (fuel : nat) (t : Q) (i : Instance) :
  timers i = [] → advance fuel t i = Some (with_now t i).
Proof. intros H. destruct fuel; simpl; rewrite H; reflexivity. Qed.

Lemma advance_early (fuel : nat) (t : Q) (i : Instance) (tm : Timer) (rest : list Timer) :
  timers i = tm :: rest → (t < due tm)%Q → advance fuel t i = Some (with_now t i).
Proof.
  intros H Hlt. apply Qle_bool_false in Hlt.
  destruct fuel; simpl; rewrite H, Hlt; reflexivity.
Qed.

Lemma advance_due (fuel : nat) (t : Q) (i : Instance) (tm : Timer) (rest : list Timer) :
  timers i = tm :: rest → (due tm <= t)%Q →
  advance (S fuel) t i = advance fuel t (fire tm (with_now (due tm) (with_timers rest i))).
Proof.
  intros H Hle. apply Qle_bool_iff in Hle. simpl. rewrite H, Hle. reflexivity.
Qed.

Lemma timeout_nonneg (x : number) : (0 <= timeout x)%Q.
Proof.
  destruct x as [q| | |]; simpl; try lra.
  destruct (Qle_bool 0 q) eqn:E; [apply Qle_bool_iff in E|]; lra.
Qed.

Lemma Qhalf_mult (q : Q) : (q / 2 == q * (1 # 2))%Q.
Proof. reflexivity. Qed.

(** For a non-negative duration the timer waits exactly half of it. *)
Lemma timeout_half (D : Q) : (0 <= D)%Q → (timeout (half (Finite D)) == D / 2)%Q.
Proof.
  intros H. simpl.
  assert (0 <= Qred (D / 2))%Q as H' by (rewrite Qred_correct, Qhalf_mult; lra).
  apply Qle_bool_iff in H'. rewrite H'. apply Qred_correct.
Qed.

(** A negative duration makes the timer fire at once. *)
Lemma timeout_half_negative (D : Q) : (D < 0)%Q → timeout (half (Finite D)) = 0%Q.
Proof.
  intros H. simpl.
  assert (Qred (D / 2) < 0)%Q as H' by (rewrite Qred_correct, Qhalf_mult; lra).
  apply Qle_bool_false in H'. rewrite H'. reflexivity.
Qed.

Lemma same_state_fade_out (d : number) :
  same_state (mkState d (of_Z 1)) (mkState d (of_Z 0)) = false.
Proof. unfold same_state. simpl. rewrite Object_is_refl. reflexivity. Qed.

Lemma same_state_commit (d s : number) :
  same_state (mkState d (of_Z 0)) (mkState s (of_Z 1)) = false.
Proof. unfold same_state. simpl. apply andb_false_r. Qed.

(** The effect body does not touch what the effect depends on. *)
Lemma effect_keeps_deps (i : Instance) :
  effect_deps (props (effect i)) (state (effect i)) = effect_deps (props i) (state i).
Proof.
  unfold effect, queueDelayedStep.
  destruct (strict_eq _ _); [reflexivity|].
  unfold flush. simpl. destruct (same_state _ _); reflexivity.
Qed.

(** Rule 1: a request for the step already displayed does nothing. *)
Lemma effect_noop (i : Instance) :
  strict_eq (currentStep (props i)) (delayedStep (state i)) = true → effect i = i.
Proof. intros H. unfold effect, queueDelayedStep. rewrite H. reflexivity. Qed.

(** Rule 2: a request for another step, made while visible, starts the
    fade-out and parks the commit on a timer. *)
Lemma effect_fades (i : Instance) :
  strict_eq (currentStep (props i)) (delayedStep (state i)) = false →
  opacity (state i) = of_Z 1 →
  effect i =
    mkInstance (props i) (mkState (delayedStep (state i)) (of_Z 0)) (deps i)
      (enqueue (mkTimer (now i + timeout (transitionDuration_ (props i)))
                        [SetDelayedStep (currentStep (props i)); SetOpacity (of_Z 1)])
               (timers i))
      (now i) (frames i ++ [mkState (delayedStep (state i)) (of_Z 0)]).
Proof.
  intros H Ho. unfold effect, queueDelayedStep. rewrite H.
  destruct i as [p [d o] dp ts t fr]. simpl in *. subst o.
  unfold flush, delay, with_timers. simpl.
  change (dispatch _ _) with (mkState d (of_Z 0)).
  rewrite same_state_fade_out. reflexivity.
Qed.

(** A render whose props carry another [currentStep] runs the effect. *)
Lemma setProps_runs_effect (i : Instance) (p' : Props) :
  same_deps (deps i) (effect_deps (props i) (state i)) = true →
  Object_is (currentStep (props i)) (currentStep p') = false →
  setProps p' i =
    effect (mkInstance p' (state i) (effect_deps p' (state i)) (timers i) (now i)
                       (frames i ++ [state i])).
Proof.
  intros Hd Hc. unfold setProps, render_pass, commit, with_props, with_deps. simpl.
  destruct (deps i) as [[a1 a2] a3]. unfold effect_deps in *. simpl in *.
  apply andb_prop in Hd as [[H1 H2]%andb_prop H3].
  rewrite (Object_is_left _ _ _ H1), Hc. reflexivity.
Qed.

(** A resumed call whose step differs from the displayed one commits it at
    full visibility, both cells in one render, and the effect runs again. *)
Lemma fire_commits (j : Instance) (tm : Timer) (s : number) :
  continuation tm = [SetDelayedStep s; SetOpacity (of_Z 1)] →
  opacity (state j) = of_Z 0 →
  same_deps (deps j) (effect_deps (props j) (state j)) = true →
  Object_is (delayedStep (state j)) s = false →
  fire tm j =
    effect (mkInstance (props j) (mkState s (of_Z 1))
                       (effect_deps (props j) (mkState s (of_Z 1)))
                       (timers j) (now j) (frames j ++ [mkState s (of_Z 1)])).
Proof.
  intros Hk Ho Hd Hs. unfold fire, flush. rewrite Hk.
  destruct j as [p [d o] [[a1 a2] a3] ts t fr]. simpl in *. subst o.
  change (dispatch (dispatch _ _) _) with (mkState s (of_Z 1)).
  rewrite same_state_commit.
  unfold render_pass, commit, with_state, with_deps. simpl.
  apply andb_prop in Hd as [[H1 H2]%andb_prop H3].
  rewrite (Object_is_left _ _ _ H2), Hs, andb_false_r. reflexivity.
Qed.

(** The first render of an in-range integer step finds it displayed. *)
Lemma mount_settled (p : Props) (t : Q) :
  strict_eq (currentStep p) (bitor0 (currentStep p)) = true →
  mount p t = mkInstance p (initial_state p) (effect_deps p (initial_state p)) [] t
                         [initial_state p]
  ∧ Idle (mount p t).
Proof.
  intros H. unfold mount. rewrite effect_noop by exact H.
  split; [reflexivity|]. unfold Idle. cbn [timers state deps props opacity].
  rewrite same_deps_refl. auto.
Qed.

(** C3. A request for the step already displayed changes neither state cell
    and sets no timer: the callback returns at once, so visibility stays 1
    when the component is idle. *)
Theorem equal_step_is_noop (i : Instance) (p' : Props) :
  strict_eq (currentStep p') (delayedStep (state i)) = true →
  queueDelayedStep (delayedStep (state i)) (transitionDuration_ p') (currentStep p') = None
  ∧ state (setProps p' i) = state i
  ∧ timers (setProps p' i) = timers i
  ∧ (Idle i → Idle (setProps p' i)).
Proof.
  intros H.
  split; [unfold queueDelayedStep; rewrite H; reflexivity|].
  unfold setProps, render_pass.
  destruct (same_deps _ _) eqn:E.
  - split; [reflexivity|]. split; [reflexivity|].
    intros (Ht & Ho & _ & _). unfold Idle. auto.
  - rewrite effect_noop by exact H.
    split; [reflexivity|]. split; [reflexivity|].
    intros (Ht & Ho & _ & _). unfold Idle.
    cbn [timers state deps props opacity commit with_props with_deps].
    rewrite same_deps_refl. auto.
Qed.

(** From [Idle], a request for another step: one render for the new props,
    one for the fade-out, and one timer holding the commit. *)
Lemma request_fades (i : Instance) (s : number) :
  Idle i →
  strict_eq s (delayedStep (state i)) = false →
  setProps (set_currentStep s (props i)) i =
    mkInstance (set_currentStep s (props i))
      (mkState (delayedStep (state i)) (of_Z 0))
      (s, delayedStep (state i), transitionDuration_ (props i))
      [mkTimer (now i + timeout (transitionDuration_ (props i)))
               [SetDelayedStep s; SetOpacity (of_Z 1)]]
      (now i)
      (frames i ++ [mkState (delayedStep (state i)) (of_Z 1);
                    mkState (delayedStep (state i)) (of_Z 0)]).
Proof.
  intros (Ht & Ho & Hd & Hc) Hs.
  rewrite setProps_runs_effect; [|exact Hd|exact (Object_is_differs _ _ _ Hc Hs)].
  rewrite effect_fades; [|exact Hs|exact Ho].
  cbn [props state deps timers now frames delayedStep currentStep set_currentStep].
  rewrite Ht. destruct (state i) as [d o]. simpl in Ho. subst o.
  rewrite <- app_assoc. reflexivity.
Qed.

(** The timer of a lone transition resolves: the requested step is committed
    at full visibility in a single render, and the component is idle again. *)
Lemma fire_settles (p : Props) (d s : number) (dp : number * number * number)
      (t : Q) (fr : list State) (tm : Timer) :
  continuation tm = [SetDelayedStep s; SetOpacity (of_Z 1)] →
  same_deps dp (effect_deps p (mkState d (of_Z 0))) = true →
  strict_eq s d = false →
  strict_eq (currentStep p) s = true →
  fire tm (mkInstance p (mkState d (of_Z 0)) dp [] t fr) =
    mkInstance p (mkState s (of_Z 1)) (effect_deps p (mkState s (of_Z 1))) [] t
               (fr ++ [mkState s (of_Z 1)]).
Proof.
  intros Hk Hd Hs Hc.
  rewrite (fire_commits _ tm s Hk); [|reflexivity|exact Hd|].
  - apply effect_noop. exact Hc.
  - cbn [state delayedStep].
    rewrite Object_is_strict by exact (strict_eq_not_NaN _ _ Hc).
    rewrite strict_eq_sym. exact Hs.
Qed.

(** C1. From [Idle], a request for a step other than the displayed one sets
    visibility to 0 in the same instant and leaves the displayed step alone;
    nothing changes until the timer is due; when it is due, exactly half the
    duration later, one render shows the requested step at visibility 1. The
    frames committed are the old step at 1, the old step at 0, then the new
    step at 1. *)
Theorem fade_out_then_commit (i : Instance) (s : number) :
  Idle i →
  strict_eq s (delayedStep (state i)) = false →
  strict_eq s s = true →
  let p' := set_currentStep s (props i) in
  let d := delayedStep (state i) in
  let h := timeout (transitionDuration_ p') in
  let i1 := setProps p' i in
  state i1 = mkState d (of_Z 0)
  ∧ now i1 = now i
  ∧ frames i1 = frames i ++ [mkState d (of_Z 1); mkState d (of_Z 0)]
  ∧ (∀ fuel t, (t < now i + h)%Q → advance fuel t i1 = Some (with_now t i1))
  ∧ (∀ fuel t, (now i + h <= t)%Q →
       ∃ i2, advance (S fuel) t i1 = Some i2
             ∧ state i2 = mkState s (of_Z 1)
             ∧ now i2 = t
             ∧ timers i2 = []
             ∧ frames i2 = frames i1 ++ [mkState s (of_Z 1)]
             ∧ Idle i2)
  ∧ (∀ D, duration_or_default p' = Finite D → (0 <= D)%Q → (h == D / 2)%Q).
Proof.
  intros HI Hs Hnan p' d h i1.
  assert (i1 = _) as E1 by exact (request_fades i s HI Hs).
  change (transitionDuration_ (props i)) with (transitionDuration_ p') in E1.
  fold d h in E1. clearbody i1. subst i1.
  split; [reflexivity|].
  split; [reflexivity|].
  split; [reflexivity|].
  split; [|split].
  - intros fuel t Ht. eapply advance_early; [reflexivity|exact Ht].
  - intros fuel t Ht.
    erewrite advance_due; [|reflexivity|exact Ht].
    unfold with_now, with_timers. cbn [props state deps timers now frames due].
    rewrite (fire_settles _ _ s); [|reflexivity|apply same_deps_refl|exact Hs|exact Hnan].
    rewrite advance_idle by reflexivity.
    eexists. split; [reflexivity|].
    unfold with_now, Idle. cbn [props state deps timers now frames opacity delayedStep].
    rewrite same_deps_refl. repeat split. exact Hnan.
  - intros D HD Hpos. subst h. unfold transitionDuration_. rewrite HD.
    apply timeout_half. exact Hpos.
Qed.

Lemma strict_eq_self_l (x y : number) : strict_eq x y = true → strict_eq x x = true.
Proof. rewrite strict_eq_sym. apply strict_eq_not_NaN. Qed.

Lemma Object_is_strict_l (x y : number) :
  strict_eq x x = true → Object_is x y = strict_eq x y.
Proof. destruct x, y; simpl; congruence. Qed.

(** A stale commit: the resumed call displays a step that is no longer the
    requested one, and the effect starts the next fade-out at once. *)
Lemma fire_restarts (p : Props) (d s : number) (dp : number * number * number)
      (t : Q) (fr : list State) (tm : Timer) :
  continuation tm = [SetDelayedStep s; SetOpacity (of_Z 1)] →
  same_deps dp (effect_deps p (mkState d (of_Z 0))) = true →
  strict_eq d d = true →
  strict_eq s d = false →
  strict_eq (currentStep p) s = false →
  fire tm (mkInstance p (mkState d (of_Z 0)) dp [] t fr) =
    mkInstance p (mkState s (of_Z 0)) (effect_deps p (mkState s (of_Z 1)))
      [mkTimer (t + timeout (transitionDuration_ p))
               [SetDelayedStep (currentStep p); SetOpacity (of_Z 1)]]
      t (fr ++ [mkState s (of_Z 1); mkState s (of_Z 0)]).
Proof.
  intros Hk Hd Hdd Hs Hc.
  rewrite (fire_commits _ tm s Hk); [|reflexivity|exact Hd|].
  - rewrite effect_fades; [|exact Hc|reflexivity].
    cbn [props state deps timers now frames delayedStep enqueue].
    rewrite <- app_assoc. reflexivity.
  - cbn [state delayedStep]. rewrite Object_is_strict_l by exact Hdd.
    rewrite strict_eq_sym. exact Hs.
Qed.

Lemma Object_is_sym (x y : number) : Object_is x y = Object_is y x.
Proof. destruct x, y; simpl; auto using Qeq_bool_sym. Qed.

(** Setting the step back to the displayed one while the fade-out is under
    way renders once more and schedules nothing. *)
Lemma set_back_schedules_nothing (i : Instance) (s : number) (t1 : Q) :
  Idle i →
  strict_eq s (delayedStep (state i)) = false →
  setProps (props i) (with_now t1 (setProps (set_currentStep s (props i)) i)) =
    mkInstance (props i)
      (mkState (delayedStep (state i)) (of_Z 0))
      (effect_deps (props i) (mkState (delayedStep (state i)) (of_Z 0)))
      [mkTimer (now i + timeout (transitionDuration_ (props i)))
               [SetDelayedStep s; SetOpacity (of_Z 1)]]
      t1
      (frames i ++ [mkState (delayedStep (state i)) (of_Z 1);
                    mkState (delayedStep (state i)) (of_Z 0);
                    mkState (delayedStep (state i)) (of_Z 0)]).
Proof.
  intros HI Hs. rewrite (request_fades i s HI Hs).
  destruct HI as (Ht & Ho & Hd & Hc).
  unfold with_now. cbn [props state deps timers now frames].
  rewrite setProps_runs_effect.
  - cbn [props state deps timers now frames]. rewrite effect_noop by exact Hc.
    rewrite <- app_assoc. reflexivity.
  - apply same_deps_refl.
  - cbn [props currentStep set_currentStep]. rewrite Object_is_sym.
    exact (Object_is_differs _ _ _ Hc Hs).
Qed.

(** C2, as the code has it. The step is set to [s] and, before the fade-out
    is over, back to the displayed value. The second request equals the
    displayed step and schedules nothing, so one commit is pending. When it
    fires, [s] is displayed and the effect, run again because the displayed
    step changed, starts a second cycle toward the last-requested value; its
    commit is due half a duration after the first. From then on the
    last-requested step is displayed at visibility 1 and nothing is pending. *)
Theorem set_back_takes_two_cycles (i : Instance) (s : number) (t1 : Q) :
  Idle i →
  strict_eq s (delayedStep (state i)) = false →
  let p := props i in
  let d := delayedStep (state i) in
  let h := timeout (transitionDuration_ p) in
  (t1 < now i + h)%Q →
  let i1 := with_now t1 (setProps (set_currentStep s p) i) in
  let i2 := setProps p i1 in
  (∀ fuel, advance fuel t1 (setProps (set_currentStep s p) i) = Some i1)
  ∧ state i2 = mkState d (of_Z 0)
  ∧ timers i2 = [mkTimer (now i + h) [SetDelayedStep s; SetOpacity (of_Z 1)]]
  ∧ (∀ fuel t, (now i + h <= t)%Q → (t < now i + h + h)%Q →
       ∃ i3, advance (S fuel) t i2 = Some i3
             ∧ state i3 = mkState s (of_Z 0)
             ∧ map due (timers i3) = [(now i + h + h)%Q])
  ∧ (∀ fuel t, (now i + h + h <= t)%Q →
       ∃ i3, advance (S (S fuel)) t i2 = Some i3
             ∧ state i3 = mkState (currentStep p) (of_Z 1)
             ∧ timers i3 = []
             ∧ frames i3 =
                 frames i ++ [mkState d (of_Z 1); mkState d (of_Z 0); mkState d (of_Z 0);
                              mkState s (of_Z 1); mkState s (of_Z 0);
                              mkState (currentStep p) (of_Z 1)]
             ∧ Idle i3).
Proof.
  intros HI Hs p d h Ht1 i1 i2.
  assert (i2 = _) as E2 by exact (set_back_schedules_nothing i s t1 HI Hs).
  fold p d h in E2.
  pose proof (request_fades i s HI Hs) as E1. fold p d h in E1.
  destruct HI as (Ht & Ho & Hd & Hc). fold p d in Hc.
  assert (strict_eq d d = true) as Hdd by exact (strict_eq_not_NaN _ _ Hc).
  assert (strict_eq (currentStep p) s = false) as Hcs
    by (rewrite (strict_eq_left _ _ s Hc), strict_eq_sym; exact Hs).
  assert (strict_eq (currentStep p) (currentStep p) = true) as Hcc
    by exact (strict_eq_self_l _ _ Hc).
  assert (∀ fuel t, (now i + h <= t)%Q →
            advance (S fuel) t i2 =
              advance fuel t
                (mkInstance p (mkState s (of_Z 0)) (effect_deps p (mkState s (of_Z 1)))
                   [mkTimer (now i + h + h) [SetDelayedStep (currentStep p); SetOpacity (of_Z 1)]]
                   (now i + h)%Q
                   (frames i ++ [mkState d (of_Z 1); mkState d (of_Z 0); mkState d (of_Z 0);
                                 mkState s (of_Z 1); mkState s (of_Z 0)]))) as Hfirst.
  { intros fuel t Hdue. rewrite E2.
    erewrite advance_due; [|reflexivity|exact Hdue].
    unfold with_now, with_timers. cbn [props state deps timers now frames due].
    rewrite (fire_restarts _ _ s); [|reflexivity|apply same_deps_refl|exact Hdd|exact Hs|exact Hcs].
    rewrite <- app_assoc. reflexivity. }
  clearbody i2.
  split; [|split; [|split; [|split]]].
  - intros fuel. subst i1. rewrite E1. eapply advance_early; [reflexivity|exact Ht1].
  - rewrite E2. reflexivity.
  - rewrite E2. reflexivity.
  - intros fuel t Hlo Hhi. rewrite (Hfirst fuel t Hlo).
    erewrite advance_early; [|reflexivity|exact Hhi].
    eexists. split; [reflexivity|]. split; reflexivity.
  - intros fuel t Hlo.
    assert (now i + h <= t)%Q as Hlo'
      by (pose proof (timeout_nonneg (transitionDuration_ p)); fold h in H; lra).
    rewrite (Hfirst _ t Hlo').
    erewrite advance_due; [|reflexivity|exact Hlo].
    unfold with_now, with_timers. cbn [props state deps timers now frames due].
    rewrite (fire_settles _ _ (currentStep p));
      [|reflexivity|apply same_deps_refl|exact Hcs|exact Hcc].
    rewrite advance_idle by reflexivity.
    eexists. split; [reflexivity|].
    unfold with_now, Idle. cbn [props state deps timers now frames opacity delayedStep].
    rewrite same_deps_refl, <- app_assoc. repeat split. exact Hcc.
Qed.

(** ** Mounting *)


Lemma head_frames_effect (i : Instance) (s : State) :
  head (frames i) = Some s → head (frames (effect i)) = Some s.
Proof.
  intros H. unfold effect. destruct (queueDelayedStep _ _ _) as [call|]; [|exact H].
  unfold flush. destruct (same_state _ _); [exact H|].
  cbn [commit with_state delay with_timers frames].
  destruct (frames i); [discriminate|exact H].
Qed.


(** C6, as the code has it. The visibility cell starts at 1 and the
    displayed-step cell at ToInt32 of the first [currentStep]: its value
    truncated toward zero and wrapped modulo 2^32 into the signed 32-bit
    range, and 0 for [NaN] and the infinities. That is the truncated value
    itself whenever the truncated value is in the signed 32-bit range. The first
    committed frame shows these initial cells. *)
Theorem initial_state_is_ToInt32 (p : Props) (t : Q) :
  opacity (initial_state p) = of_Z 1
  ∧ head (frames (mount p t)) = Some (initial_state p)
  ∧ delayedStep (initial_state p) = of_Z (ToInt32 (currentStep p))
  ∧ (∀ q, currentStep p = Finite q →
       ToInt32 (currentStep p) = wrap32 (truncate q)
       ∧ truncate q = (if Qle_bool 0 q then Qfloor q else Qceiling q)
       ∧ - 2 ^ 31 <= wrap32 (truncate q) < 2 ^ 31
       ∧ (wrap32 (truncate q) - truncate q) mod 2 ^ 32 = 0
       ∧ (- 2 ^ 31 <= truncate q < 2 ^ 31 →
          delayedStep (initial_state p) = of_Z (truncate q)))
  ∧ (currentStep p = NaN ∨ currentStep p = Infinity ∨ currentStep p = NegInfinity →
     delayedStep (initial_state p) = of_Z 0).
Proof.
  split; [reflexivity|].
  split; [unfold mount; apply head_frames_effect; reflexivity|].
  split; [reflexivity|].
  split.
  - intros q Hq. unfold initial_state, bitor0. cbn [delayedStep]. rewrite Hq.
    split; [reflexivity|]. split; [apply truncate_toward_zero|].
    split; [apply wrap32_range|]. split; [apply wrap32_congruent|].
    intros Hr. simpl. rewrite (wrap32_small _ Hr). reflexivity.
  - unfold initial_state, bitor0. cbn [delayedStep].
    intros [-> | [-> | ->]]; reflexivity.
Qed.

(** C6 as worded fails outside the signed 32-bit range: a first step of 2^31
    is seeded as -2^31. *)
Lemma seed_wraps_at_2_31 :
  ¬ seeded_with_truncation (set_currentStep (of_Z 2147483648) abc).
Proof.
  intros H. specialize (H _ eq_refl). vm_compute in H. discriminate H.
Qed.

(** C2 as worded fails on the three-item example with duration 1000: the
    step is set to 1 at time 0 and back to 0 at time 100. One commit is
    pending, not two, and at time 600, when both half-durations have passed,
    step 1 is displayed at visibility 0. *)
Lemma set_back_is_not_settled_at_600 :
  ¬ both_commits_scheduled (mount abc 0) (of_Z 1) 100
  ∧ ¬ settled_after_both (mount abc 0) (of_Z 1) 100.
Proof.
  split.
  - intros H. specialize (H O _ eq_refl). vm_compute in H. discriminate H.
  - intros H. specialize (H O _ 2%nat _ eq_refl eq_refl). vm_compute in H. discriminate H.
Qed.

(** C5. A duration of 0 is replaced by the default: the commit waits 500 ms
    like an omitted duration, it is not applied at once. *)
Theorem zero_duration_waits (p : Props) (q : Q) :
  transitionDuration p = Some (Finite q) →
  (q == 0)%Q →
  duration_or_default p = of_Z 1000
  ∧ timeout (transitionDuration_ p) = 500%Q.
Proof.
  intros Hp Hq.
  assert (duration_or_default p = of_Z 1000) as HD.
  { unfold duration_or_default. rewrite Hp. simpl.
    apply Qeq_bool_iff in Hq. rewrite Hq. reflexivity. }
  split; [exact HD|]. unfold transitionDuration_. rewrite HD. reflexivity.
Qed.

(** A negative duration is kept, and its timer fires with no delay. *)
Lemma negative_duration_is_instant (p : Props) (D : Q) :
  transitionDuration p = Some (Finite D) →
  (D < 0)%Q →
  timeout (transitionDuration_ p) = 0%Q.
Proof.
  intros Hp HD. unfold transitionDuration_, duration_or_default. rewrite Hp.
  assert (truthy (Finite D) = true) as ->.
  { simpl. destruct (Qeq_bool D 0) eqn:E; [|reflexivity].
    apply Qeq_bool_iff in E. lra. }
  apply timeout_half_negative. exact HD.
Qed.

(** ** The properties at concrete inputs *)

(** Scenario A: from step 0 to step 2 with duration 1000; the commit is seen
    at 500 ms. *)
Lemma fade_out_then_commit_witness :
  Idle (mount abc 0)
  ∧ state (setProps (set_currentStep (of_Z 2) abc) (mount abc 0))
      = mkState (of_Z 0) (of_Z 0)
  ∧ ∃ i2, advance 1 500 (setProps (set_currentStep (of_Z 2) abc) (mount abc 0)) = Some i2
          ∧ state i2 = mkState (of_Z 2) (of_Z 1).
Proof.
  assert (Idle (mount abc 0)) as HI by (unfold Idle; vm_compute; auto).
  split; [exact HI|].
  destruct (fade_out_then_commit (mount abc 0) (of_Z 2) HI eq_refl eq_refl)
    as (H0 & _ & _ & _ & H & _).
  split; [exact H0|].
  destruct (H 0%nat 500%Q ltac:(vm_compute; discriminate)) as (i2 & E & S & _).
  exists i2. split; [exact E|exact S].
Defined.

(** Scenario C: to step 1 at time 0, back to step 0 at time 100; settled at
    1000 ms. *)
Lemma set_back_takes_two_cycles_witness :
  Idle (mount abc 0)
  ∧ ∃ i3, advance 2 1000 (setProps abc (with_now 100 (setProps (set_currentStep (of_Z 1) abc)
                                                              (mount abc 0)))) = Some i3
          ∧ state i3 = mkState (of_Z 0) (of_Z 1)
          ∧ timers i3 = [].
Proof.
  assert (Idle (mount abc 0)) as HI by (unfold Idle; vm_compute; auto).
  split; [exact HI|].
  destruct (set_back_takes_two_cycles (mount abc 0) (of_Z 1) 100 HI eq_refl
              ltac:(vm_compute; reflexivity))
    as (_ & _ & _ & _ & H).
  destruct (H 0%nat 1000%Q ltac:(vm_compute; discriminate)) as (i3 & E & S & T & _).
  exists i3. split; [exact E|]. split; [exact S|exact T].
Defined.

Lemma equal_step_is_noop_witness :
  state (setProps abc (mount abc 0)) = mkState (of_Z 0) (of_Z 1)
  ∧ timers (setProps abc (mount abc 0)) = [].
Proof.
  destruct (equal_step_is_noop (mount abc 0) abc eq_refl) as (_ & S & T & _).
  split; [exact S|exact T].
Defined.


Lemma zero_duration_waits_witness :
  timeout (transitionDuration_ (with_duration (Some (of_Z 0)) abc)) = 500%Q.
Proof.
  exact (proj2 (zero_duration_waits (with_duration (Some (of_Z 0)) abc) 0 eq_refl
                  ltac:(reflexivity))).
Defined.

Lemma initial_state_is_ToInt32_witness :
  delayedStep (initial_state (set_currentStep (Finite (-7 # 2)) abc)) = of_Z (-3).
Proof.
  destruct (initial_state_is_ToInt32 (set_currentStep (Finite (-7 # 2)) abc) 0)
    as (_ & _ & _ & H & _).
  destruct (H (-7 # 2)%Q eq_refl) as (_ & _ & _ & _ & R).
  exact (R ltac:(vm_compute; split; [discriminate|reflexivity])).
Defined.

Lemma defaults_witness :
  transitionDuration_ (with_duration None abc) = of_Z 500
  ∧ animationType_ abc = "ease-in-out".
Proof.
  destruct (defaults decimal (with_duration None abc) (of_Z 1)) as (H & _).
  destruct (H eq_refl) as (_ & HT & _).
  destruct (defaults decimal abc (of_Z 1)) as (_ & HA).
  split; [exact HT|exact (HA eq_refl)].
Defined.

Lemma caller_styles_win_witness :
  style_of (render decimal styled (of_Z 0) (of_Z 1)) !! "transition"
    = Some (CssString "none")
  ∧ style_of (wrapper decimal styled (of_Z 1) 0 (Text "A")) !! "display"
    = Some (CssString "block")
  ∧ style_of (wrapper decimal styled (of_Z 1) 0 (Text "A")) !! "width"
    = Some (CssString "100%").
Proof.
  assert (wrapper decimal styled (of_Z 1) 0 (Text "A")
            ∈ children_of (render decimal styled (of_Z 0) (of_Z 1))) as Hin
    by (rewrite children_of_render; apply list_elem_of_singleton; reflexivity).
  split; [|split].
  - rewrite (proj1 (caller_styles_win decimal styled (of_Z 0) (of_Z 1) "transition")).
    reflexivity.
  - rewrite (proj2 (caller_styles_win decimal styled (of_Z 0) (of_Z 1) "display") _ Hin).
    reflexivity.
  - rewrite (proj2 (caller_styles_win decimal styled (of_Z 0) (of_Z 1) "width") _ Hin).
    reflexivity.
Defined.



Example empty_timing_function_renders_default :
  style_of (render decimal (with_animation (Some EmptyString) abc) (of_Z 0) (of_Z 1))
    !! "transition" = Some (CssString "height 500s ease-in-out").
Proof. reflexivity. Qed.

Example caller_transition_is_rendered :
  style_of (render decimal (with_animation (Some "linear") styled) (of_Z 0) (of_Z 1))
    !! "transition" = Some (CssString "none").
Proof. reflexivity. Qed.

Example zero_duration_renders_500 :
  style_of (render decimal
              (with_duration (Some (of_Z 0)) (with_animation (Some "linear") abc))
              (of_Z 0) (of_Z 1))
    !! "transition" = Some (CssString "height 500s linear").
Proof. reflexivity. Qed.


(** ** What every reachable instance keeps *)

Lemma strict_eq_Object_is (x y : number) : strict_eq x y = true → Object_is x y = true.
Proof. destruct x, y; simpl; congruence. Qed.

Lemma Object_is_trans (x y z : number) :
  Object_is x y = true → Object_is y z = true → Object_is x z = true.
Proof. intros Hxy Hyz. rewrite (Object_is_left _ _ z Hxy). exact Hyz. Qed.

Lemma of_Z_1_ne_0 : of_Z 1 ≠ of_Z 0.
Proof. intros [=]. Qed.

Lemma enqueue_nonempty (tm : Timer) (queue : list Timer) : enqueue tm queue ≠ [].
Proof. destruct queue as [|x rest]; simpl; [|destruct (Qle_bool _ _)]; discriminate. Qed.

Lemma enqueue_Forall (P : Timer → Prop) (tm : Timer) (queue : list Timer) :
  P tm → Forall P queue → Forall P (enqueue tm queue).
Proof.
  intros Htm. induction 1 as [|x rest Hx Hrest IH]; simpl.
  - repeat constructor. exact Htm.
  - destruct (Qle_bool _ _); repeat constructor; assumption.
Qed.

Lemma enqueue_Exists_new (P : Timer → Prop) (tm : Timer) (queue : list Timer) :
  P tm → Exists P (enqueue tm queue).
Proof.
  intros Htm. induction queue as [|x rest IH]; simpl.
  - constructor. exact Htm.
  - destruct (Qle_bool _ _); [apply Exists_cons_tl; exact IH|constructor; exact Htm].
Qed.

Lemma enqueue_Exists_old (P : Timer → Prop) (tm : Timer) (queue : list Timer) :
  Exists P queue → Exists P (enqueue tm queue).
Proof.
  induction 1 as [x rest Hx|x rest Hrest IH]; simpl.
  - destruct (Qle_bool _ _); [constructor; exact Hx|].
    apply Exists_cons_tl. constructor. exact Hx.
  - destruct (Qle_bool _ _); [apply Exists_cons_tl; exact IH|].
    apply Exists_cons_tl. apply Exists_cons_tl. exact Hrest.
Qed.

(** Two dependency arrays that both match the stored one agree on the step. *)
Lemma same_deps_step (a : number * number * number) (c d td c' d' td' : number) :
  same_deps a (c, d, td) = true → same_deps a (c', d', td') = true →
  Object_is c c' = true ∧ Object_is d d' = true.
Proof.
  destruct a as [[a1 a2] a3]. simpl.
  intros [[H1 H2]%andb_prop _]%andb_prop [[H1' H2']%andb_prop _]%andb_prop.
  split.
  - rewrite <- (Object_is_left _ _ c' H1). exact H1'.
  - rewrite <- (Object_is_left _ _ d' H2). exact H2'.
Qed.

(** The effect turns a well-formed instance into one that satisfies the
    invariant: either the requested step is displayed, or the effect has just
    parked a commit of it. *)
Lemma effect_invariant (j : Instance) : well_formed j → invariant (effect j).
Proof.
  intros (Hb & Hf & Ht & Hd & Hz).
  unfold effect, queueDelayedStep.
  destruct (strict_eq (currentStep (props j)) (delayedStep (state j))) eqn:E.
  - split; [repeat split; assumption|]. left. apply strict_eq_Object_is. exact E.
  - assert (∃ s, commits (mkTimer (now j + timeout (transitionDuration_ (props j)))
                                  [SetDelayedStep (currentStep (props j)); SetOpacity (of_Z 1)]) s)
      as Hnew by (eexists; reflexivity).
    unfold flush. cbn [before ms after].
    destruct (same_state _ _) eqn:B.
    + split.
      * unfold well_formed, delay, with_timers. cbn [props state deps timers frames].
        repeat split; try assumption.
        -- apply enqueue_Forall; assumption.
        -- intros _. apply enqueue_nonempty.
      * right. unfold delay, with_timers. cbn [props timers].
        apply enqueue_Exists_new. eexists. split; [reflexivity|apply Object_is_refl].
    + split.
      * unfold well_formed, commit, with_state, delay, with_timers.
        cbn [props state deps timers frames foldl dispatch opacity].
        repeat split.
        -- left. reflexivity.
        -- apply Forall_app. split; [exact Hf|]. repeat constructor.
        -- apply enqueue_Forall; assumption.
        -- exact Hd.
        -- intros _. apply enqueue_nonempty.
      * right. unfold commit, with_state, delay, with_timers. cbn [props timers].
        apply enqueue_Exists_new. eexists. split; [reflexivity|apply Object_is_refl].
Qed.

Lemma render_pass_invariant (j : Instance) :
  binary (state j) →
  Forall binary (frames j) →
  Forall (λ tm, ∃ s, commits tm s) (timers j) →
  (opacity (state j) = of_Z 0 → timers j ≠ []) →
  (same_deps (deps j) (effect_deps (props j) (state j)) = true →
   Object_is (currentStep (props j)) (delayedStep (state j)) = true
   ∨ Exists (λ tm, ∃ s, commits tm s ∧ Object_is (currentStep (props j)) s = true)
            (timers j)) →
  invariant (render_pass j).
Proof.
  intros Hb Hf Ht Hz Hsame. unfold render_pass.
  assert (Forall binary (frames j ++ [state j])) as Hf'
    by (apply Forall_app; split; [exact Hf|apply Forall_singleton; exact Hb]).
  cbn [commit props state deps].
  destruct (same_deps (deps j) (effect_deps (props j) (state j))) eqn:E.
  - split; [|exact (Hsame eq_refl)].
    unfold well_formed, commit. cbn [props state deps timers frames].
    repeat split; assumption.
  - apply effect_invariant.
    unfold well_formed, with_deps, commit. cbn [props state deps timers frames].
    repeat split; try assumption. apply same_deps_refl.
Qed.

Lemma setProps_invariant (p' : Props) (i : Instance) :
  invariant i → invariant (setProps p' i).
Proof.
  intros [(Hb & Hf & Ht & Hd & Hz) Hreq]. unfold setProps.
  apply render_pass_invariant; unfold with_props; cbn [props state deps timers frames];
    try assumption.
  intros Hd'. unfold effect_deps in Hd, Hd'.
  destruct (same_deps_step _ _ _ _ _ _ _ Hd Hd') as [Hc _].
  assert (∀ x, Object_is (currentStep (props i)) x = true →
               Object_is (currentStep p') x = true) as Hmove.
  { intros x Hx. rewrite <- (Object_is_left _ _ x Hc). exact Hx. }
  destruct Hreq as [Hdisp|Hpend].
  - left. apply Hmove. exact Hdisp.
  - right. eapply Exists_impl; [exact Hpend|].
    intros tm (s & Hk & Hs). exists s. split; [exact Hk|apply Hmove; exact Hs].
Qed.

Lemma fire_invariant (i : Instance) (tm : Timer) (rest : list Timer) (t : Q) :
  invariant i → timers i = tm :: rest →
  invariant (fire tm (with_now t (with_timers rest i))).
Proof.
  intros [(Hb & Hf & Ht & Hd & Hz) Hreq] Hq. rewrite Hq in Ht, Hreq.
  apply Forall_cons in Ht as [(s & Hk) Hrest].
  assert (Object_is (delayedStep (state i)) s = true →
          Object_is (currentStep (props i)) s = true
          ∨ Exists (λ tm, ∃ s, commits tm s ∧ Object_is (currentStep (props i)) s = true)
                   rest) as Hnext.
  { intros Hds. destruct Hreq as [Hdisp|Hpend].
    - left. exact (Object_is_trans _ _ _ Hdisp Hds).
    - apply Exists_cons in Hpend as [(s' & Hk' & Hs')|Hpend]; [left|right; exact Hpend].
      unfold commits in Hk, Hk'. rewrite Hk in Hk'. injection Hk' as <-. exact Hs'. }
  unfold commits in Hk.
  unfold fire, flush, with_now, with_timers. cbv zeta.
  cbn [props state deps timers frames now]. rewrite !Hk. cbn [foldl].
  change (dispatch (dispatch (state i) (SetDelayedStep s)) (SetOpacity (of_Z 1)))
    with (mkState s (of_Z 1)).
  destruct (same_state (state i) (mkState s (of_Z 1))) eqn:B.
  - apply andb_prop in B as [Bd Bo]. cbn [delayedStep opacity] in Bd, Bo.
    split.
    + unfold well_formed. cbn [props state deps timers frames].
      repeat split; try assumption.
      intros Ho. rewrite Ho in Bo. discriminate Bo.
    + cbn [props state timers]. destruct (Hnext Bd) as [Hcs|Hpend]; [left|right; exact Hpend].
      rewrite Object_is_sym in Bd. exact (Object_is_trans _ _ _ Hcs Bd).
  - apply render_pass_invariant; unfold with_state; cbn [props state deps timers frames].
    + right. reflexivity.
    + exact Hf.
    + exact Hrest.
    + cbn [opacity]. intros Ho. destruct (of_Z_1_ne_0 Ho).
    + intros Hd'. unfold effect_deps in Hd, Hd'. cbn [delayedStep] in Hd'.
      destruct (same_deps_step _ _ _ _ _ _ _ Hd Hd') as [_ Hds].
      cbn [delayedStep]. exact (Hnext Hds).
Qed.

Lemma advance_invariant (fuel : nat) (t : Q) (i i' : Instance) :
  invariant i → advance fuel t i = Some i' → invariant i'.
Proof.
  revert i. induction fuel as [|fuel IH]; intros i Hi; simpl.
  - destruct (timers i) as [|tm rest]; [intros [= <-]; exact Hi|].
    destruct (Qle_bool (due tm) t); [discriminate|intros [= <-]; exact Hi].
  - destruct (timers i) as [|tm rest] eqn:Hq; [intros [= <-]; exact Hi|].
    destruct (Qle_bool (due tm) t); [|intros [= <-]; exact Hi].
    apply IH. apply fire_invariant; assumption.
Qed.

Lemma reachable_invariant (i : Instance) : reachable i → invariant i.
Proof.
  induction 1 as [p t|p i _ IH|fuel t i i' _ IH Hadv].
  - unfold mount. apply effect_invariant.
    unfold well_formed, commit. cbn [props state deps timers frames].
    assert (binary (initial_state p)) as Hb by (right; reflexivity).
    split; [exact Hb|]. split; [apply Forall_singleton; exact Hb|].
    split; [constructor|]. split; [apply same_deps_refl|].
    intros Ho. destruct (of_Z_1_ne_0 Ho).
  - apply setProps_invariant. exact IH.
  - exact (advance_invariant fuel t i i' IH Hadv).
Qed.

(** X1. The visibility cell only ever holds 0 or 1: in every reachable
    instance, and in every frame it has committed. *)
Theorem visibility_is_binary (i : Instance) :
  reachable i →
  (opacity (state i) = of_Z 0 ∨ opacity (state i) = of_Z 1)
  ∧ Forall (λ f, opacity f = of_Z 0 ∨ opacity f = of_Z 1) (frames i).
Proof.
  intros [(Hb & Hf & _) _]%reachable_invariant. split; [exact Hb|exact Hf].
Qed.


(** X3. A prop change never alters the displayed step. Either it leaves the
    state cells and the timers alone, or the requested step differs from the
    displayed one and it fades out and parks one commit of the requested
    step, due after the delay of the new props. *)
Theorem request_keeps_displayed_step (i : Instance) (p' : Props) :
  delayedStep (state (setProps p' i)) = delayedStep (state i)
  ∧ ((state (setProps p' i) = state i ∧ timers (setProps p' i) = timers i)
     ∨ (strict_eq (currentStep p') (delayedStep (state i)) = false
        ∧ Object_is (opacity (state (setProps p' i))) (of_Z 0) = true
        ∧ timers (setProps p' i) =
            enqueue (mkTimer (now i + timeout (transitionDuration_ p'))
                             [SetDelayedStep (currentStep p'); SetOpacity (of_Z 1)])
                    (timers i))).
Proof.
  unfold setProps, render_pass.
  destruct (same_deps _ _); [split; [reflexivity|left; split; reflexivity]|].
  unfold effect, queueDelayedStep.
  cbn [with_deps commit with_props props state deps timers now frames].
  destruct (strict_eq (currentStep p') (delayedStep (state i))) eqn:E;
    [split; [reflexivity|left; split; reflexivity]|].
  unfold flush. cbn [before ms after delay with_timers state foldl dispatch].
  destruct (same_state _ _) eqn:B.
  - split; [reflexivity|]. right. split; [reflexivity|].
    apply andb_prop in B as [_ Bo]. split; [exact Bo|reflexivity].
  - split; [reflexivity|]. right. split; [reflexivity|]. split; reflexivity.
Qed.

(** ** When the first render is quiet *)

Lemma truncate_integer (q : Q) (z : Z) : (q == inject_Z z)%Q → truncate q = z.
Proof.
  destruct q as [n d]. unfold Qeq, truncate. simpl. rewrite Z.mul_1_r. intros ->.
  apply Z.quot_mul. discriminate.
Qed.

(** [x === (x | 0)] holds exactly for the integers of the signed 32-bit range. *)
Lemma int32_fixed_point (x : number) :
  strict_eq x (bitor0 x) = true
  ↔ ∃ q z, x = Finite q ∧ (q == inject_Z z)%Q ∧ - 2 ^ 31 <= z < 2 ^ 31.
Proof.
  split.
  - destruct x as [q| | |]; simpl; try discriminate.
    intros E%Qeq_bool_iff. exists q, (wrap32 (truncate q)).
    split; [reflexivity|]. split; [exact E|apply wrap32_range].
  - intros (q & z & -> & E & R). simpl. apply Qeq_bool_iff.
    rewrite (truncate_integer q z E), (wrap32_small z R). exact E.
Qed.

(** X4. The first render starts no fade exactly when the first [currentStep]
    is an integer of the signed 32-bit range; the component is then idle with
    the single frame of its initial cells. For any other first step a commit
    is parked on mount. *)
Theorem first_render_is_quiet_iff (p : Props) (t : Q) :
  (timers (mount p t) = []
   ↔ ∃ q z, currentStep p = Finite q ∧ (q == inject_Z z)%Q ∧ - 2 ^ 31 <= z < 2 ^ 31)
  ∧ (timers (mount p t) = [] →
     state (mount p t) = initial_state p
     ∧ frames (mount p t) = [initial_state p]
     ∧ Idle (mount p t)).
Proof.
  assert (timers (mount p t) = [] →
          strict_eq (currentStep p) (bitor0 (currentStep p)) = true) as Hquiet.
  { destruct (strict_eq (currentStep p) (bitor0 (currentStep p))) eqn:E; [reflexivity|].
    unfold mount. rewrite effect_fades; [|exact E|reflexivity].
    cbn [timers commit enqueue]. discriminate. }
  split.
  - rewrite <- int32_fixed_point. split; [exact Hquiet|].
    intros E. destruct (mount_settled p t E) as [-> _]. reflexivity.
  - intros Hq. destruct (mount_settled p t (Hquiet Hq)) as [E HI].
    split; [rewrite E; reflexivity|]. split; [rewrite E; reflexivity|exact HI].
Qed.

(** ** More on the rendered tree *)

(** X5. Whatever step is displayed, the one rendered wrapper has key 0 and
    holds exactly the component at the displayed index: the key is the index
    in the filtered array, not in [components]. *)
Theorem wrapper_key_is_zero (Number_toString : number → string) (p : Props)
        (d o : number) (c : ReactNode) :
  c ∈ children_of (render Number_toString p d o) →
  key_of c = Some 0%nat
  ∧ ∃ n x, as_index d = Some n ∧ components p !! n = Some x ∧ children_of c = [x].
Proof.
  rewrite children_of_render.
  destruct (as_index d) as [n|] eqn:E; simpl; [|intros []%not_elem_of_nil].
  destruct (components p !! n) as [x|] eqn:L; [|intros []%not_elem_of_nil].
  intros ->%list_elem_of_singleton. split; [reflexivity|].
  exists n, x. repeat split; assumption.
Qed.

Lemma item_literal_other (Number_toString : number → string) (p : Props)
      (o o' : number) (k : string) :
  k ≠ "opacity" →
  item_literal Number_toString p o !! k = item_literal Number_toString p o' !! k.
Proof.
  intros Hk. unfold item_literal. rewrite !(lookup_insert_ne _ "opacity") by congruence.
  reflexivity.
Qed.

(** X6. The fade shows only if the caller leaves [opacity] alone: when the
    caller's item style sets [opacity], the rendered tree is the same for
    every value of the visibility cell; when it does not, each wrapper carries
    the cell's value. *)
Theorem caller_opacity_hides_the_fade (Number_toString : number → string) (p : Props)
        (d : number) :
  (is_Some (style_ p !! "opacity") →
   ∀ o o', render Number_toString p d o = render Number_toString p d o')
  ∧ (style_ p !! "opacity" = None →
     ∀ o c, c ∈ children_of (render Number_toString p d o) →
            style_of c !! "opacity" = Some (CssNumber o)).
Proof.
  split.
  - intros [v Hv] o o'. unfold render. f_equal. apply imap_ext. intros n x _.
    unfold wrapper. f_equal. apply map_eq. intros k. rewrite !lookup_spread.
    destruct (style_ p !! k) eqn:E; [reflexivity|].
    apply item_literal_other. intros ->. congruence.
  - intros Hnone o c Hc. rewrite (style_of_child _ p d o _ c Hc), Hnone. reflexivity.
Qed.

(** ** Requests and timers that overlap *)

(** A request made while already faded out parks its commit and renders
    nothing new. *)
Lemma effect_parks_again (i : Instance) :
  strict_eq (currentStep (props i)) (delayedStep (state i)) = false →
  opacity (state i) = of_Z 0 →
  effect i =
    mkInstance (props i) (state i) (deps i)
      (enqueue (mkTimer (now i + timeout (transitionDuration_ (props i)))
                        [SetDelayedStep (currentStep (props i)); SetOpacity (of_Z 1)])
               (timers i))
      (now i) (frames i).
Proof.
  intros H Ho. unfold effect, queueDelayedStep. rewrite H.
  destruct i as [p [d o] dp ts t fr]. simpl in *. subst o.
  unfold flush, delay, with_timers. simpl.
  change (dispatch _ _) with (mkState d (of_Z 0)).
  unfold same_state. simpl. rewrite Object_is_refl. reflexivity.
Qed.

(** A resumed call that finds its step displayed at full visibility changes
    nothing: no render, no effect. *)
Lemma fire_bails (j : Instance) (tm : Timer) (s : number) :
  continuation tm = [SetDelayedStep s; SetOpacity (of_Z 1)] →
  Object_is (delayedStep (state j)) s = true →
  opacity (state j) = of_Z 1 →
  fire tm j = j.
Proof.
  intros Hk Hs Ho. unfold fire, flush. rewrite Hk.
  destruct j as [p [d o] dp ts t fr]. simpl in *. subst o.
  change (dispatch (dispatch _ _) _) with (mkState s (of_Z 1)).
  unfold same_state. simpl. rewrite Hs. reflexivity.
Qed.

(** A resumed call that only restores visibility renders once and does not
    run the effect. *)
Lemma fire_shows (j : Instance) (tm : Timer) (s : number) :
  continuation tm = [SetDelayedStep s; SetOpacity (of_Z 1)] →
  opacity (state j) = of_Z 0 →
  same_deps (deps j) (effect_deps (props j) (mkState s (of_Z 1))) = true →
  fire tm j =
    mkInstance (props j) (mkState s (of_Z 1)) (deps j) (timers j) (now j)
               (frames j ++ [mkState s (of_Z 1)]).
Proof.
  intros Hk Ho Hd. unfold fire, flush. rewrite Hk.
  destruct j as [p [d o] dp ts t fr]. simpl in *. subst o.
  change (dispatch (dispatch _ _) _) with (mkState s (of_Z 1)).
  rewrite same_state_commit.
  unfold render_pass, commit, with_state. cbn [props state deps timers now frames].
  rewrite Hd. reflexivity.
Qed.

Lemma same_deps_left (a b c : number * number * number) :
  same_deps a b = true → same_deps a c = same_deps b c.
Proof.
  destruct a as [[a1 a2] a3], b as [[b1 b2] b3], c as [[c1 c2] c3]. simpl.
  intros [[H1 H2]%andb_prop H3]%andb_prop.
  rewrite (Object_is_left _ _ c1 H1), (Object_is_left _ _ c2 H2),
    (Object_is_left _ _ c3 H3). reflexivity.
Qed.

(** A render whose props change any dependency of the effect runs it. *)
Lemma setProps_runs_effect_on_change (i : Instance) (p' : Props) :
  same_deps (deps i) (effect_deps (props i) (state i)) = true →
  same_deps (effect_deps (props i) (state i)) (effect_deps p' (state i)) = false →
  setProps p' i =
    effect (mkInstance p' (state i) (effect_deps p' (state i)) (timers i) (now i)
                       (frames i ++ [state i])).
Proof.
  intros Hd Hc. unfold setProps, render_pass, commit, with_props, with_deps.
  cbn [props state deps timers now frames].
  rewrite (same_deps_left _ _ _ Hd), Hc. reflexivity.
Qed.

(** A second request, for yet another step, made during the fade-out of the
    first: both commits are pending, in the order they were requested. *)
Lemma second_request_parks (i : Instance) (a b : number) (t1 : Q) :
  Idle i →
  strict_eq a (delayedStep (state i)) = false →
  strict_eq b (delayedStep (state i)) = false →
  Object_is a b = false →
  (now i <= t1)%Q →
  setProps (set_currentStep b (props i))
           (with_now t1 (setProps (set_currentStep a (props i)) i)) =
    mkInstance (set_currentStep b (props i))
      (mkState (delayedStep (state i)) (of_Z 0))
      (b, delayedStep (state i), transitionDuration_ (props i))
      [mkTimer (now i + timeout (transitionDuration_ (props i)))
               [SetDelayedStep a; SetOpacity (of_Z 1)];
       mkTimer (t1 + timeout (transitionDuration_ (props i)))
               [SetDelayedStep b; SetOpacity (of_Z 1)]]
      t1
      (frames i ++ [mkState (delayedStep (state i)) (of_Z 1);
                    mkState (delayedStep (state i)) (of_Z 0);
                    mkState (delayedStep (state i)) (of_Z 0)]).
Proof.
  intros HI Ha Hb Hab Ht1. rewrite (request_fades i a HI Ha).
  unfold with_now. cbn [props state deps timers now frames].
  rewrite setProps_runs_effect; [|apply same_deps_refl|exact Hab].
  rewrite effect_parks_again; [|exact Hb|reflexivity].
  cbn [props state deps timers now frames enqueue due currentStep set_currentStep].
  change (transitionDuration_ (set_currentStep b (props i)))
    with (transitionDuration_ (props i)).
  assert (Qle_bool (now i + timeout (transitionDuration_ (props i)))
                   (t1 + timeout (transitionDuration_ (props i))) = true) as ->
    by (apply Qle_bool_iff; lra).
  rewrite <- app_assoc. reflexivity.
Qed.

(** X7. Nothing cancels a pending commit. From [Idle], step [a] is requested
    and then, during its fade-out, another step [b]. Both commits stay
    pending. When the first is due the superseded step [a] is displayed, at
    full visibility in one frame and then faded out again; when the second is
    due [b] is displayed at visibility 1, and it stays: the third commit,
    parked when [a] was displayed, finds [b] already there and changes
    nothing. *)
Theorem overlapping_requests_are_not_cancelled (i : Instance) (a b : number) (t1 : Q) :
  Idle i →
  strict_eq a (delayedStep (state i)) = false →
  strict_eq b (delayedStep (state i)) = false →
  strict_eq b a = false →
  strict_eq b b = true →
  let p := props i in
  let d := delayedStep (state i) in
  let h := timeout (transitionDuration_ p) in
  (now i <= t1)%Q → (t1 < now i + h)%Q →
  let i2 := setProps (set_currentStep b p)
                     (with_now t1 (setProps (set_currentStep a p) i)) in
  state i2 = mkState d (of_Z 0)
  ∧ timers i2 = [mkTimer (now i + h) [SetDelayedStep a; SetOpacity (of_Z 1)];
                 mkTimer (t1 + h) [SetDelayedStep b; SetOpacity (of_Z 1)]]
  ∧ (∀ fuel t, (now i + h <= t)%Q → (t < t1 + h)%Q →
       ∃ i3, advance (S fuel) t i2 = Some i3 ∧ state i3 = mkState a (of_Z 0))
  ∧ (∀ fuel t, (t1 + h <= t)%Q →
       ∃ i3, advance (S (S (S fuel))) t i2 = Some i3
             ∧ state i3 = mkState b (of_Z 1)
             ∧ frames i3 =
                 frames i ++ [mkState d (of_Z 1); mkState d (of_Z 0); mkState d (of_Z 0);
                              mkState a (of_Z 1); mkState a (of_Z 0); mkState b (of_Z 1)]
             ∧ ((now i + h + h <= t)%Q → timers i3 = [])).
Proof.
  intros HI Ha Hb Hba Hbb p d h Hlo Hhi i2.
  assert (Object_is a b = false) as Hab
    by (rewrite (Object_is_strict _ _ Hbb), strict_eq_sym; exact Hba).
  assert (i2 = _) as E2 by exact (second_request_parks i a b t1 HI Ha Hb Hab Hlo).
  fold p d h in E2. clearbody i2. subst i2.
  destruct HI as (_ & _ & _ & Hc). fold p d in Hc.
  assert (strict_eq d d = true) as Hdd by exact (strict_eq_not_NaN _ _ Hc).
  assert (Object_is d a = false) as Hda
    by (rewrite (Object_is_strict_l _ _ Hdd), strict_eq_sym; exact Ha).
  pose proof (timeout_nonneg (transitionDuration_ p)) as Hh. fold h in Hh.
  (* the first commit: [a] is displayed, and faded out again at once *)
  assert (∀ fuel t, (now i + h <= t)%Q →
            advance (S fuel) t
              (mkInstance (set_currentStep b p) (mkState d (of_Z 0))
                 (b, d, transitionDuration_ p)
                 [mkTimer (now i + h) [SetDelayedStep a; SetOpacity (of_Z 1)];
                  mkTimer (t1 + h) [SetDelayedStep b; SetOpacity (of_Z 1)]]
                 t1
                 (frames i ++ [mkState d (of_Z 1); mkState d (of_Z 0); mkState d (of_Z 0)])) =
            advance fuel t
              (mkInstance (set_currentStep b p) (mkState a (of_Z 0))
                 (b, a, transitionDuration_ p)
                 [mkTimer (t1 + h) [SetDelayedStep b; SetOpacity (of_Z 1)];
                  mkTimer (now i + h + h) [SetDelayedStep b; SetOpacity (of_Z 1)]]
                 (now i + h)%Q
                 (frames i ++ [mkState d (of_Z 1); mkState d (of_Z 0); mkState d (of_Z 0);
                               mkState a (of_Z 1); mkState a (of_Z 0)]))) as Hfirst.
  { intros fuel t Hdue.
    erewrite advance_due; [|reflexivity|exact Hdue].
    unfold with_now, with_timers. cbn [props state deps timers now frames due].
    rewrite (fire_commits _ _ a); [|reflexivity|reflexivity|apply same_deps_refl|exact Hda].
    cbn [props state deps timers now frames].
    rewrite effect_fades; [|exact Hba|reflexivity].
    cbn [props state deps timers now frames enqueue due delayedStep currentStep
         set_currentStep].
    change (transitionDuration_ (set_currentStep b p)) with (transitionDuration_ p).
    fold h.
    assert (Qle_bool (t1 + h) (now i + h + h) = true) as ->
      by (apply Qle_bool_iff; lra).
    rewrite <- !app_assoc. reflexivity. }
  (* the second commit: [b] is displayed and the effect finds it so *)
  assert (∀ fuel t, (t1 + h <= t)%Q →
            advance (S fuel) t
              (mkInstance (set_currentStep b p) (mkState a (of_Z 0))
                 (b, a, transitionDuration_ p)
                 [mkTimer (t1 + h) [SetDelayedStep b; SetOpacity (of_Z 1)];
                  mkTimer (now i + h + h) [SetDelayedStep b; SetOpacity (of_Z 1)]]
                 (now i + h)%Q
                 (frames i ++ [mkState d (of_Z 1); mkState d (of_Z 0); mkState d (of_Z 0);
                               mkState a (of_Z 1); mkState a (of_Z 0)])) =
            advance fuel t
              (mkInstance (set_currentStep b p) (mkState b (of_Z 1))
                 (b, b, transitionDuration_ p)
                 [mkTimer (now i + h + h) [SetDelayedStep b; SetOpacity (of_Z 1)]]
                 (t1 + h)%Q
                 (frames i ++ [mkState d (of_Z 1); mkState d (of_Z 0); mkState d (of_Z 0);
                               mkState a (of_Z 1); mkState a (of_Z 0);
                               mkState b (of_Z 1)]))) as Hsecond.
  { intros fuel t Hdue.
    erewrite advance_due; [|reflexivity|exact Hdue].
    unfold with_now, with_timers. cbn [props state deps timers now frames due].
    rewrite (fire_commits _ _ b); [|reflexivity|reflexivity|apply same_deps_refl|exact Hab].
    cbn [props state deps timers now frames].
    rewrite effect_noop by exact Hbb.
    rewrite <- !app_assoc. reflexivity. }
  split; [reflexivity|]. split; [reflexivity|]. split.
  - intros fuel t Hdue Hearly. rewrite (Hfirst fuel t Hdue).
    erewrite advance_early; [|reflexivity|exact Hearly].
    eexists. split; reflexivity.
  - intros fuel t Hdue.
    rewrite Hfirst by lra. rewrite (Hsecond _ t Hdue).
    destruct (Qlt_le_dec t (now i + h + h)) as [Hearly|Hlate].
    + erewrite advance_early; [|reflexivity|exact Hearly].
      eexists. split; [reflexivity|]. split; [reflexivity|]. split; [reflexivity|].
      intros Hlate. lra.
    + erewrite advance_due; [|reflexivity|exact Hlate].
      unfold with_now, with_timers. cbn [props state deps timers now frames due].
      rewrite (fire_bails _ _ b); [|reflexivity| |reflexivity].
      * rewrite advance_idle by reflexivity.
        eexists. split; [reflexivity|]. split; [reflexivity|]. split; reflexivity.
      * cbn [state delayedStep]. rewrite (Object_is_strict _ _ Hbb). exact Hbb.
Qed.

Lemma as_index_of_nat_0 : as_index (of_Z 0) = Some 0%nat.
Proof. reflexivity. Qed.

(** X8. A first step of [NaN] does not make the component fade forever. It
    is seeded as 0, so the item at index 0 is what the first frame shows; the
    mount-time check fails and a fade-out starts. When its commit fires the
    displayed step is [NaN], whose own equality check fails again and starts
    one more cycle; the second commit changes visibility only, the effect's
    dependencies are unchanged, and the component rests at visibility 1 with
    nothing rendered and nothing pending. *)
Theorem NaN_step_fades_twice (p : Props) (t0 : Q) :
  currentStep p = NaN →
  let h := timeout (transitionDuration_ p) in
  state (mount p t0) = mkState (of_Z 0) (of_Z 0)
  ∧ frames (mount p t0) = [mkState (of_Z 0) (of_Z 1); mkState (of_Z 0) (of_Z 0)]
  ∧ (∀ Number_toString,
       children_of (render Number_toString p (of_Z 0) (of_Z 1)) =
         match components p !! 0%nat with
         | Some x => [wrapper Number_toString p (of_Z 1) 0 x]
         | None => []
         end)
  ∧ (∀ fuel t, (t0 + h + h <= t)%Q →
       ∃ i, advance (S (S fuel)) t (mount p t0) = Some i
            ∧ state i = mkState NaN (of_Z 1)
            ∧ timers i = []
            ∧ frames i = [mkState (of_Z 0) (of_Z 1); mkState (of_Z 0) (of_Z 0);
                          mkState NaN (of_Z 1); mkState NaN (of_Z 0);
                          mkState NaN (of_Z 1)]
            ∧ ∀ Number_toString,
                children_of (render Number_toString (props i) (delayedStep (state i))
                                    (opacity (state i))) = []).
Proof.
  intros Hq h.
  assert (initial_state p = mkState (of_Z 0) (of_Z 1)) as Hinit
    by (unfold initial_state; rewrite Hq; reflexivity).
  assert (mount p t0 =
          mkInstance p (mkState (of_Z 0) (of_Z 0)) (effect_deps p (initial_state p))
            [mkTimer (t0 + h) [SetDelayedStep NaN; SetOpacity (of_Z 1)]] t0
            [mkState (of_Z 0) (of_Z 1); mkState (of_Z 0) (of_Z 0)]) as E0.
  { unfold mount. rewrite effect_fades.
    - unfold commit. cbn [props state deps timers now frames enqueue].
      rewrite Hinit, Hq. reflexivity.
    - cbn [commit props state]. rewrite Hinit, Hq. reflexivity.
    - reflexivity. }
  pose proof (timeout_nonneg (transitionDuration_ p)) as Hh. fold h in Hh.
  rewrite E0.
  split; [reflexivity|]. split; [reflexivity|]. split.
  - intros ns. rewrite children_of_render, as_index_of_nat_0. reflexivity.
  - intros fuel t Hdue.
    erewrite advance_due; [|reflexivity|cbn [due]; lra].
    unfold with_now, with_timers. cbn [props state deps timers now frames due].
    rewrite (fire_commits _ _ NaN); [|reflexivity|reflexivity| |reflexivity].
    + cbn [props state deps timers now frames].
      rewrite effect_fades; [|cbn [props state]; rewrite Hq; reflexivity|reflexivity].
      cbn [props state deps timers now frames enqueue delayedStep]. rewrite Hq. fold h.
      erewrite advance_due; [|reflexivity|exact Hdue].
      unfold with_now, with_timers. cbn [props state deps timers now frames due].
      rewrite (fire_shows _ _ NaN); [|reflexivity|reflexivity|apply same_deps_refl].
      cbn [props state deps timers now frames].
      rewrite advance_idle by reflexivity.
      eexists. split; [reflexivity|]. split; [reflexivity|]. split; [reflexivity|].
      split; [reflexivity|]. intros ns. unfold with_now.
      cbn [props state delayedStep opacity]. rewrite children_of_render. reflexivity.
    + cbn [props state deps]. rewrite Hinit. apply same_deps_refl.
Qed.

(** X9. With a negative [transitionDuration] the transition takes no time:
    the duration is kept as given, its half is negative, and the timer is due
    in the same instant. The fade-out frame is still committed before the
    requested step appears. *)
Theorem negative_duration_commits_at_once (i : Instance) (s : number) (D : Q)
        (fuel : nat) :
  Idle i →
  transitionDuration (props i) = Some (Finite D) →
  (D < 0)%Q →
  strict_eq s (delayedStep (state i)) = false →
  strict_eq s s = true →
  ∃ i2, advance (S fuel) (now i) (setProps (set_currentStep s (props i)) i) = Some i2
        ∧ state i2 = mkState s (of_Z 1)
        ∧ timers i2 = []
        ∧ frames i2 = frames i ++ [mkState (delayedStep (state i)) (of_Z 1);
                                   mkState (delayedStep (state i)) (of_Z 0);
                                   mkState s (of_Z 1)].
Proof.
  intros HI HD Hneg Hs Hnan.
  rewrite (request_fades i s HI Hs).
  rewrite (negative_duration_is_instant (props i) D HD Hneg).
  erewrite advance_due; [|reflexivity|cbn [due]; lra].
  unfold with_now, with_timers. cbn [props state deps timers now frames due].
  rewrite (fire_settles _ _ s); [|reflexivity|apply same_deps_refl|exact Hs|exact Hnan].
  rewrite advance_idle by reflexivity.
  eexists. split; [reflexivity|]. split; [reflexivity|]. split; [reflexivity|].
  unfold with_now. cbn [frames]. rewrite <- app_assoc. reflexivity.
Qed.

(** X10. Changing [transitionDuration] during a fade-out does not move the
    pending commit: the effect runs again, because [queueDelayedStep] is a new
    function, and parks a second commit of the same step after the new
    delay. The step is displayed when the earlier of the two is due, in a
    single frame; the later one finds it displayed and changes nothing. *)
Theorem duration_change_adds_a_commit (i : Instance) (s : number) (D' : option number)
        (t1 : Q) :
  Idle i →
  strict_eq s (delayedStep (state i)) = false →
  strict_eq s s = true →
  let p1 := set_currentStep s (props i) in
  let p2 := with_duration D' p1 in
  let d := delayedStep (state i) in
  let due1 := (now i + timeout (transitionDuration_ p1))%Q in
  let due2 := (t1 + timeout (transitionDuration_ p2))%Q in
  Object_is (transitionDuration_ p1) (transitionDuration_ p2) = false →
  let i2 := setProps p2 (with_now t1 (setProps p1 i)) in
  state i2 = mkState d (of_Z 0)
  ∧ timers i2 = enqueue (mkTimer due2 [SetDelayedStep s; SetOpacity (of_Z 1)])
                        [mkTimer due1 [SetDelayedStep s; SetOpacity (of_Z 1)]]
  ∧ (∀ fuel t, (t < due1)%Q → (t < due2)%Q →
       ∃ i3, advance fuel t i2 = Some i3 ∧ state i3 = mkState d (of_Z 0))
  ∧ (∀ fuel t, (due1 <= t)%Q ∨ (due2 <= t)%Q →
       ∃ i3, advance (S (S fuel)) t i2 = Some i3
             ∧ state i3 = mkState s (of_Z 1)
             ∧ frames i3 = frames i ++ [mkState d (of_Z 1); mkState d (of_Z 0);
                                        mkState d (of_Z 0); mkState s (of_Z 1)]
             ∧ ((due1 <= t)%Q → (due2 <= t)%Q → timers i3 = [])).
Proof.
  intros HI Hs Hnan p1 p2 d due1 due2 Hchg i2.
  assert (i2 =
          mkInstance p2 (mkState d (of_Z 0)) (effect_deps p2 (mkState d (of_Z 0)))
            (enqueue (mkTimer due2 [SetDelayedStep s; SetOpacity (of_Z 1)])
                     [mkTimer due1 [SetDelayedStep s; SetOpacity (of_Z 1)]])
            t1
            (frames i ++ [mkState d (of_Z 1); mkState d (of_Z 0); mkState d (of_Z 0)]))
    as E2.
  { subst i2. change (setProps p1 i) with (setProps (set_currentStep s (props i)) i).
    rewrite (request_fades i s HI Hs).
    unfold with_now. cbn [props state deps timers now frames].
    rewrite setProps_runs_effect_on_change.
    - rewrite effect_parks_again; [|exact Hs|reflexivity].
      cbn [props state deps timers now frames]. rewrite <- app_assoc. reflexivity.
    - apply same_deps_refl.
    - unfold effect_deps, same_deps. cbn [props state].
      change (transitionDuration_ (set_currentStep s (props i)))
        with (transitionDuration_ p1).
      fold p1 p2. rewrite Hchg. apply andb_false_r. }
  clearbody i2. subst i2.
  assert (Object_is d s = false) as Hds.
  { destruct HI as (_ & _ & _ & Hc).
    rewrite (Object_is_strict _ _ Hnan), strict_eq_sym. exact Hs. }
  assert (Object_is s s = true) as Hss by apply Object_is_refl.
  (* whichever timer comes first commits [s]; the other one then bails *)
  assert (∀ fuel t (first second : Timer) (t' : Q),
            continuation first = [SetDelayedStep s; SetOpacity (of_Z 1)] →
            continuation second = [SetDelayedStep s; SetOpacity (of_Z 1)] →
            (due first <= t)%Q →
            ∃ i3, advance (S (S fuel)) t
                    (mkInstance p2 (mkState d (of_Z 0)) (effect_deps p2 (mkState d (of_Z 0)))
                       [first; second] t'
                       (frames i ++ [mkState d (of_Z 1); mkState d (of_Z 0);
                                     mkState d (of_Z 0)])) = Some i3
                  ∧ state i3 = mkState s (of_Z 1)
                  ∧ frames i3 = frames i ++ [mkState d (of_Z 1); mkState d (of_Z 0);
                                             mkState d (of_Z 0); mkState s (of_Z 1)]
                  ∧ ((due second <= t)%Q → timers i3 = [])) as Hrun.
  { intros fuel t first second t' Hk1 Hk2 Hdue.
    erewrite advance_due; [|reflexivity|exact Hdue].
    unfold with_now, with_timers. cbn [props state deps timers now frames].
    rewrite (fire_commits _ _ s); [|exact Hk1|reflexivity|apply same_deps_refl|exact Hds].
    cbn [props state deps timers now frames].
    rewrite effect_noop by exact Hnan.
    destruct (Qlt_le_dec t (due second)) as [Hearly|Hlate].
    - erewrite advance_early; [|reflexivity|exact Hearly].
      eexists. split; [reflexivity|]. split; [reflexivity|].
      split; [cbn [with_now frames]; rewrite <- app_assoc; reflexivity|].
      intros Hlate. lra.
    - erewrite advance_due; [|reflexivity|exact Hlate].
      unfold with_now, with_timers. cbn [props state deps timers now frames].
      rewrite (fire_bails _ _ s); [|exact Hk2|exact Hss|reflexivity].
      rewrite advance_idle by reflexivity.
      eexists. split; [reflexivity|]. split; [reflexivity|].
      split; [cbn [with_now frames]; rewrite <- app_assoc; reflexivity|].
      reflexivity. }
  split; [reflexivity|]. split; [reflexivity|].
  cbn [enqueue due].
  destruct (Qle_bool due1 due2) eqn:Ord.
  - apply Qle_bool_iff in Ord. split.
    + intros fuel t H1 H2. erewrite advance_early; [|reflexivity|exact H1].
      eexists. split; reflexivity.
    + intros fuel t Hdue.
      destruct (Qlt_le_dec t due1) as [Hearly|Hlate].
      * erewrite advance_early; [|reflexivity|exact Hearly].
        destruct Hdue as [Hdue|Hdue]; lra.
      * destruct (Hrun fuel t (mkTimer due1 [SetDelayedStep s; SetOpacity (of_Z 1)])
                           (mkTimer due2 [SetDelayedStep s; SetOpacity (of_Z 1)]) t1
                           eq_refl eq_refl Hlate) as (i3 & E & S3 & F3 & T3).
        exists i3. split; [exact E|]. split; [exact S3|]. split; [exact F3|].
        intros _ H2. exact (T3 H2).
  - apply Qle_bool_false in Ord. split.
    + intros fuel t H1 H2. erewrite advance_early; [|reflexivity|exact H2].
      eexists. split; reflexivity.
    + intros fuel t Hdue.
      destruct (Qlt_le_dec t due2) as [Hearly|Hlate].
      * erewrite advance_early; [|reflexivity|exact Hearly].
        destruct Hdue as [Hdue|Hdue]; lra.
      * destruct (Hrun fuel t (mkTimer due2 [SetDelayedStep s; SetOpacity (of_Z 1)])
                           (mkTimer due1 [SetDelayedStep s; SetOpacity (of_Z 1)]) t1
                           eq_refl eq_refl Hlate) as (i3 & E & S3 & F3 & T3).
        exists i3. split; [exact E|]. split; [exact S3|]. split; [exact F3|].
        intros H1 _. exact (T3 H1).
Qed.

(** ** These properties at concrete inputs *)

Lemma visibility_is_binary_witness :
  opacity (state (setProps (set_currentStep (of_Z 2) abc) (mount abc 0))) = of_Z 0
  ∨ opacity (state (setProps (set_currentStep (of_Z 2) abc) (mount abc 0))) = of_Z 1.
Proof.
  exact (proj1 (visibility_is_binary _
                  (reach_setProps (set_currentStep (of_Z 2) abc) _ (reach_mount abc 0)))).
Defined.


Lemma first_render_is_quiet_iff_witness :
  timers (mount abc 0) = [] ∧ frames (mount abc 0) = [initial_state abc].
Proof.
  destruct (first_render_is_quiet_iff abc 0) as [[_ Hquiet] Hthen].
  assert (timers (mount abc 0) = []) as T.
  { apply Hquiet. exists 0%Q, 0. split; [reflexivity|]. split; [reflexivity|lia]. }
  split; [exact T|]. exact (proj1 (proj2 (Hthen T))).
Defined.

Lemma wrapper_key_is_zero_witness :
  key_of (wrapper decimal abc (of_Z 1) 0 (Text "C")) = Some 0%nat.
Proof.
  assert (wrapper decimal abc (of_Z 1) 0 (Text "C")
            ∈ children_of (render decimal abc (of_Z 2) (of_Z 1))) as Hin
    by (rewrite children_of_render; apply list_elem_of_singleton; reflexivity).
  exact (proj1 (wrapper_key_is_zero decimal abc (of_Z 2) (of_Z 1) _ Hin)).
Defined.

Lemma caller_opacity_hides_the_fade_witness :
  render decimal (with_styles (Some {[ "opacity" := CssNumber (of_Z 1) ]}) None abc)
         (of_Z 0) (of_Z 0)
  = render decimal (with_styles (Some {[ "opacity" := CssNumber (of_Z 1) ]}) None abc)
           (of_Z 0) (of_Z 1).
Proof.
  apply (proj1 (caller_opacity_hides_the_fade decimal
                  (with_styles (Some {[ "opacity" := CssNumber (of_Z 1) ]}) None abc)
                  (of_Z 0))).
  eexists. reflexivity.
Defined.

(** Step 1 requested at time 0 and step 2 at time 100, duration 1000: step 1
    is on display from 500 to 600, step 2 from 600 on. *)
Lemma overlapping_requests_are_not_cancelled_witness :
  (∃ i3, advance 1 550 (setProps (set_currentStep (of_Z 2) abc)
                          (with_now 100 (setProps (set_currentStep (of_Z 1) abc)
                                                  (mount abc 0)))) = Some i3
         ∧ state i3 = mkState (of_Z 1) (of_Z 0))
  ∧ (∃ i3, advance 3 1000 (setProps (set_currentStep (of_Z 2) abc)
                             (with_now 100 (setProps (set_currentStep (of_Z 1) abc)
                                                     (mount abc 0)))) = Some i3
           ∧ state i3 = mkState (of_Z 2) (of_Z 1)
           ∧ timers i3 = []).
Proof.
  assert (Idle (mount abc 0)) as HI by (unfold Idle; vm_compute; auto).
  destruct (overlapping_requests_are_not_cancelled (mount abc 0) (of_Z 1) (of_Z 2) 100
              HI eq_refl eq_refl eq_refl eq_refl
              ltac:(vm_compute; discriminate) ltac:(vm_compute; reflexivity))
    as (_ & _ & Hmid & Hend).
  split.
  - destruct (Hmid 0%nat 550%Q ltac:(vm_compute; discriminate)
                   ltac:(vm_compute; reflexivity)) as (i3 & E & S3).
    exists i3. split; [exact E|exact S3].
  - destruct (Hend 0%nat 1000%Q ltac:(vm_compute; discriminate))
      as (i3 & E & S3 & _ & T3).
    exists i3. split; [exact E|]. split; [exact S3|].
    exact (T3 ltac:(vm_compute; discriminate)).
Defined.

Lemma NaN_step_fades_twice_witness :
  ∃ i, advance 2 1000 (mount (set_currentStep NaN abc) 0) = Some i
       ∧ state i = mkState NaN (of_Z 1)
       ∧ timers i = [].
Proof.
  destruct (NaN_step_fades_twice (set_currentStep NaN abc) 0 eq_refl)
    as (_ & _ & _ & H).
  destruct (H 0%nat 1000%Q ltac:(vm_compute; discriminate)) as (i & E & S & T & _).
  exists i. split; [exact E|]. split; [exact S|exact T].
Defined.

Lemma negative_duration_commits_at_once_witness :
  ∃ i2, advance 1 0 (setProps (set_currentStep (of_Z 2)
                                 (with_duration (Some (of_Z (-100))) abc))
                              (mount (with_duration (Some (of_Z (-100))) abc) 0)) = Some i2
        ∧ state i2 = mkState (of_Z 2) (of_Z 1).
Proof.
  assert (Idle (mount (with_duration (Some (of_Z (-100))) abc) 0)) as HI
    by (unfold Idle; vm_compute; auto).
  destruct (negative_duration_commits_at_once
              (mount (with_duration (Some (of_Z (-100))) abc) 0) (of_Z 2) (-100) 0
              HI eq_refl ltac:(vm_compute; reflexivity) eq_refl eq_refl)
    as (i2 & E & S & _).
  exists i2. split; [exact E|exact S].
Defined.

(** Step 2 requested at time 0 with duration 1000; at time 100 the duration
    becomes 200: the commit is seen at 200, not at 500. *)
Lemma duration_change_adds_a_commit_witness :
  ∃ i3, advance 2 200 (setProps (with_duration (Some (of_Z 200))
                                    (set_currentStep (of_Z 2) abc))
                         (with_now 100 (setProps (set_currentStep (of_Z 2) abc)
                                                 (mount abc 0)))) = Some i3
        ∧ state i3 = mkState (of_Z 2) (of_Z 1).
Proof.
  assert (Idle (mount abc 0)) as HI by (unfold Idle; vm_compute; auto).
  destruct (duration_change_adds_a_commit (mount abc 0) (of_Z 2) (Some (of_Z 200)) 100
              HI eq_refl eq_refl eq_refl)
    as (_ & _ & _ & H).
  destruct (H 0%nat 200%Q ltac:(right; vm_compute; discriminate)) as (i3 & E & S & _).
  exists i3. split; [exact E|exact S].
Defined.
